(** * nepaltemittance: the remittance converter of [main.js]

    A shallow embedding of the conversion widget: the JavaScript values it
    manipulates (strings, IEEE-754 doubles, the rates object), the built-ins
    it calls ([parseFloat], [Number.prototype.toFixed], [split], [slice],
    [setTimeout]) and the functions of [main.js] themselves
    ([formatNPR], [convertCurrency], [updateLastUpdated],
    [updateRatesTable], [showError], [showConversionError], [loadRates],
    [bindEvents], [debounce]), followed by the formatter of the
    specification and by the proofs.

    Conventions.
    - A JavaScript string is a Rocq [string]: the UTF-8 bytes of its text.
      The program measures and slices only the output of [toFixed], which is
      ASCII, so byte positions and UTF-16 positions coincide wherever
      [length], [slice] and [substring] are applied.
    - A JavaScript Number is a [spec_float] at precision 53 and maximal
      exponent 1024 (binary64); NaN carries no payload, as in JavaScript.
    - [undefined] and [null] are [None]. *)

From Stdlib Require Import ZArith List Bool Ascii String Lia.
From Stdlib Require Import Floats.SpecFloat.
From Stdlib Require QArith Qround.
Import ListNotations.

Open Scope string_scope.
Open Scope Z_scope.

(** ** Strings *)

Module JSString.

(** [s.length] *)
Definition length (s : string) : Z := Z.of_nat (String.length s).

(** Relative index of [slice]: a negative index counts from the end. *)
Definition relativeIndex (len i : Z) : Z :=
  if i <? 0 then Z.max (len + i) 0 else Z.min i len.

(** [s.slice(start, end)]; [end_ = None] is an omitted second argument. *)
Definition slice (s : string) (start : Z) (end_ : option Z) : string :=
  let len := length s in
  let from := relativeIndex len start in
  let to := match end_ with
            | None => len
            | Some e => relativeIndex len e
            end in
  if to <=? from then ""
  else String.substring (Z.to_nat from) (Z.to_nat (to - from)) s.

(** [s.substring(start)] *)
Definition substring (s : string) (start : Z) : string :=
  let len := length s in
  let finalStart := Z.min (Z.max start 0) len in
  String.substring (Z.to_nat finalStart) (Z.to_nat (len - finalStart)) s.

(** [s.startsWith(p)] *)
Definition startsWith (s p : string) : bool := String.prefix p s.

(** [s.split(sep)] for a separator of one character. *)
Fixpoint split (sep : ascii) (s : string) : list string :=
  match s with
  | EmptyString => [""]
  | String c s' =>
      if Ascii.eqb c sep then "" :: split sep s'
      else match split sep s' with
           | [] => [String c ""]
           | h :: t => String c h :: t
           end
  end.

(** All characters of [s] satisfy [p]; [notChar sep] is "differs from
    [sep]". *)
Fixpoint allChars (p : ascii -> bool) (s : string) : bool :=
  match s with
  | EmptyString => true
  | String c s' => p c && allChars p s'
  end.

Definition notChar (sep c : ascii) : bool := negb (Ascii.eqb c sep).

(** The characters of [s] that satisfy [p], in order. *)
Definition filterChars (p : ascii -> bool) (s : string) : string :=
  string_of_list_ascii (filter p (list_ascii_of_string s)).

(** [s] without its commas. *)
Definition removeCommas (s : string) : string := filterChars (notChar ",") s.

(** String concatenation with a possibly undefined right operand:
    [ToString(undefined)] is ["undefined"]. *)
Definition toStringOpt (v : option string) : string :=
  match v with
  | Some s => s
  | None => "undefined"
  end.

End JSString.

(** ** Numbers *)

Module JSNumber.

Definition Number : Type := spec_float.

Definition prec : Z := 53.
Definition emax : Z := 1024.

Definition NaN : Number := S754_nan.
Definition posZero : Number := S754_zero false.
Definition negZero : Number := S754_zero true.
Definition posInfinity : Number := S754_infinity false.

(** The Number value of a positive integer (round to nearest, ties to
    even). *)
Definition ofZ (n : Z) : Number := binary_normalize prec emax n 0 false.

(** [x * y] *)
Definition mul (x y : Number) : Number := SFmul prec emax x y.

(** [x === y] on Numbers: NaN differs from everything, the two zeros are
    equal. *)
Definition strictEq (x y : Number) : bool := SFeqb x y.

(** [ToBoolean]: NaN and both zeros are falsy. *)
Definition toBoolean (x : Number) : bool :=
  match x with
  | S754_zero _ | S754_nan => false
  | _ => true
  end.

(** [x || 0] *)
Definition orZero (x : Number) : Number :=
  if toBoolean x then x else posZero.

(** [x < 0]: a negative finite number or minus infinity (not the negative
    zero, not NaN). *)
Definition isNegative (x : Number) : bool :=
  match x with
  | S754_finite true _ _ | S754_infinity true => true
  | _ => false
  end.

(** [Number.isFinite(x)]: neither NaN nor an infinity. *)
Definition isFinite (x : Number) : bool :=
  match x with
  | S754_zero _ | S754_finite _ _ _ => true
  | _ => false
  end.

(** *** Decimal digits of a non-negative integer *)

Definition digitChar (d : Z) : ascii := ascii_of_nat (48 + Z.to_nat d).

Fixpoint decimalDigits_aux (fuel : nat) (n : Z) (acc : string) : string :=
  match fuel with
  | O => acc
  | S fuel' =>
      let acc' := String (digitChar (n mod 10)) acc in
      if n <? 10 then acc' else decimalDigits_aux fuel' (n / 10) acc'
  end.

(** The digits of [n], most significant first, no leading zero; ["0"] for
    zero.  A number below [2^k] has at most [k] decimal digits, which
    bounds the recursion. *)
Definition decimalDigits (n : Z) : string :=
  decimalDigits_aux (S (Z.to_nat (Z.log2 n))) n "".

Fixpoint zeros (k : nat) : string :=
  match k with
  | O => ""
  | S k' => String "0" (zeros k')
  end.

(** *** Number::toString for values of at least 10^21

    The value [v] is an integer here.  The digits are the shortest [s]
    (with [k] digits) for which [s * 10^(n-k)] rounds back to the Number,
    and among those of that length the one nearest to [v]; the output is in
    exponential notation because [n > 21].  A double is told apart from its
    neighbours by the nearest decimal of 17 digits, so the lengths 1 to 17
    are tried; were none to round back, all the digits of [v] are kept. *)

Definition roundTrips (x : Number) (v : Z) : bool := SFeqb (ofZ v) x.

Definition carry (k s n : Z) : Z * Z :=
  if s =? 10 ^ k then (10 ^ (k - 1), n + 1) else (s, n).

Definition tryDigits (x : Number) (v n k : Z) : option (Z * Z) :=
  let p := 10 ^ (n - k) in
  let lo := v / p in
  let hi := lo + 1 in
  let okLo := roundTrips x (lo * p) in
  let okHi := roundTrips x (hi * p) in
  match okLo, okHi with
  | true, true =>
      if v - lo * p <=? hi * p - v then Some (lo, n) else Some (carry k hi n)
  | true, false => Some (lo, n)
  | false, true => Some (carry k hi n)
  | false, false => None
  end.

Fixpoint shortestDigits (fuel : nat) (x : Number) (v n k : Z) : Z * Z :=
  match fuel with
  | O => (v, n)
  | S fuel' =>
      match tryDigits x v n k with
      | Some r => r
      | None => shortestDigits fuel' x v n (k + 1)
      end
  end.

Definition exponentialString (s n : Z) : string :=
  let ds := decimalDigits s in
  let ex := "e+" ++ decimalDigits (n - 1) in
  match ds with
  | String d EmptyString => String d ex
  | String d rest => String d ("." ++ rest ++ ex)
  | EmptyString => ex
  end.

Definition toStringLarge (x : Number) (v : Z) : string :=
  let n := JSString.length (decimalDigits v) in
  let '(s, n') := shortestDigits 17 x v n 1 in
  exponentialString s n'.

(** *** Number.prototype.toFixed *)

(** Whether the real [m * 2^e] is at least [10^21]. *)
Definition atLeast1e21 (m : positive) (e : Z) : bool :=
  if 0 <=? e then 10 ^ 21 <=? Zpos m * 2 ^ e
  else 10 ^ 21 * 2 ^ (- e) <=? Zpos m.

(** The integer [n] for which [n / 10^f - m * 2^e] is closest to zero,
    the larger one when two are equally close. *)
Definition roundScaled (f : nat) (m : positive) (e : Z) : Z :=
  if 0 <=? e then Zpos m * 2 ^ e * 10 ^ Z.of_nat f
  else (2 * Zpos m * 10 ^ Z.of_nat f + 2 ^ (- e)) / 2 ^ (1 - e).

(** The digits of [n] with a point before the last [f] of them, padded
    with zeros on the left up to [f + 1] digits. *)
Definition fixedDigits (f : nat) (n : Z) : string :=
  let m := decimalDigits n in
  match f with
  | O => m
  | _ =>
      let k := String.length m in
      let m' := if (k <=? f)%nat then zeros (f + 1 - k) ++ m else m in
      let k' := String.length m' in
      String.substring 0 (k' - f) m' ++ "." ++ String.substring (k' - f) f m'
  end.

(** [x.toFixed(f)] for [0 <= f <= 100] (the program only passes 2, so the
    RangeError of other arguments cannot arise). *)
Definition toFixed (x : Number) (f : nat) : string :=
  match x with
  | S754_nan => "NaN"
  | S754_infinity false => "Infinity"
  | S754_infinity true => "-Infinity"
  | S754_zero _ => fixedDigits f 0
  | S754_finite s m e =>
      (if s then "-" else "") ++
      (if atLeast1e21 m e
       then toStringLarge (S754_finite false m e) (Zpos m * 2 ^ e)
       else fixedDigits f (roundScaled f m e))
  end.

(** [toFixed] prints [x] in fixed notation: [x] is finite and below 10^21
    in absolute value. *)
Definition fixedNotation (x : Number) : bool :=
  match x with
  | S754_zero _ => true
  | S754_finite _ m e => negb (atLeast1e21 m e)
  | _ => false
  end.

End JSNumber.

(** ** parseFloat *)

Module JSParse.
Import JSNumber.

Definition isDigit (c : ascii) : bool :=
  let n := nat_of_ascii c in (48 <=? n)%nat && (n <=? 57)%nat.

Definition isExponentIndicator (c : ascii) : bool :=
  Ascii.eqb c "e" || Ascii.eqb c "E".

(** The longest run of decimal digits at the front, and what follows. *)
Fixpoint takeDigits (s : string) : string * string :=
  match s with
  | String c s' =>
      if isDigit c
      then let (d, r) := takeDigits s' in (String c d, r)
      else ("", s)
  | EmptyString => ("", "")
  end.

(** The mathematical value of a run of digits, left to right. *)
Fixpoint digitsValue (acc : Z) (s : string) : Z :=
  match s with
  | String c s' => digitsValue (10 * acc + (Z.of_nat (nat_of_ascii c) - 48)) s'
  | EmptyString => acc
  end.

(** [TrimString(s, start)] on the UTF-8 bytes: the WhiteSpace and
    LineTerminator code points are TAB, LF, VT, FF, CR, SP, U+00A0,
    U+1680, U+2000..U+200A, U+2028, U+2029, U+202F, U+205F, U+3000 and
    U+FEFF. *)
Definition byte (c : ascii) : nat := nat_of_ascii c.

Definition isAsciiSpace (c : ascii) : bool :=
  let n := byte c in
  ((9 <=? n)%nat && (n <=? 13)%nat) || (n =? 32)%nat.

Fixpoint trimStart (s : string) : string :=
  match s with
  | String c1 s1 =>
      if isAsciiSpace c1 then trimStart s1
      else
        match s1 with
        | String c2 s2 =>
            if ((byte c1 =? 194) && (byte c2 =? 160))%nat then trimStart s2
            else
              match s2 with
              | String c3 s3 =>
                  let b1 := byte c1 in
                  let b2 := byte c2 in
                  let b3 := byte c3 in
                  if ((b1 =? 225) && (b2 =? 154) && (b3 =? 128)
                      || (b1 =? 226) && (b2 =? 128)
                         && ((128 <=? b3) && (b3 <=? 138)
                             || (b3 =? 168) || (b3 =? 169) || (b3 =? 175))
                      || (b1 =? 226) && (b2 =? 129) && (b3 =? 159)
                      || (b1 =? 227) && (b2 =? 128) && (b3 =? 128)
                      || (b1 =? 239) && (b2 =? 187) && (b3 =? 191))%nat
                  then trimStart s3
                  else s
              | EmptyString => s
              end
        | EmptyString => s
        end
  | EmptyString => ""
  end.

(** StrUnsignedDecimalLiteral, as scanned: [Infinity], or the integer
    digits, the fraction digits and the exponent. *)
Inductive StrUnsigned : Type :=
| LitInfinity
| LitDecimal (intDigits fracDigits : string) (exponent : Z).

(** The digits of an ExponentPart after its indicator and sign: at least
    one is needed, otherwise nothing of [whole] is consumed. *)
Definition exponentDigits (neg : bool) (digits whole : string) : Z * string :=
  let (ds, s3) := takeDigits digits in
  match ds with
  | EmptyString => (0, whole)
  | _ => ((if neg then - digitsValue 0 ds else digitsValue 0 ds), s3)
  end.

(** ExponentPart, when one is there: [e] or [E], an optional sign, at
    least one digit.  Otherwise nothing is consumed. *)
Definition scanExponent (s : string) : Z * string :=
  match s with
  | String c s1 =>
      if isExponentIndicator c then
        match s1 with
        | String d r =>
            if Ascii.eqb d "+" then exponentDigits false r s
            else if Ascii.eqb d "-" then exponentDigits true r s
            else exponentDigits false s1 s
        | EmptyString => exponentDigits false s1 s
        end
      else (0, s)
  | EmptyString => (0, "")
  end.

Definition dropPrefix (p s : string) : string :=
  String.substring (String.length p) (String.length s - String.length p) s.

(** After the integer digits [i] and a point: the fraction digits and the
    exponent.  A point with no digit on either side is no literal. *)
Definition scanFraction (i s2 : string) : option (StrUnsigned * string) :=
  let (f, s3) := takeDigits s2 in
  match i, f with
  | EmptyString, EmptyString => None
  | _, _ => let (e, s4) := scanExponent s3 in Some (LitDecimal i f e, s4)
  end.

(** After the integer digits [i] when no point follows: the exponent. *)
Definition scanNoFraction (i s1 : string) : option (StrUnsigned * string) :=
  match i with
  | EmptyString => None
  | _ => let (e, s4) := scanExponent s1 in Some (LitDecimal i "" e, s4)
  end.

Definition scanUnsigned (s : string) : option (StrUnsigned * string) :=
  if String.prefix "Infinity" s then Some (LitInfinity, dropPrefix "Infinity" s)
  else
    let (i, s1) := takeDigits s in
    match s1 with
    | String c s2 =>
        if Ascii.eqb c "." then scanFraction i s2 else scanNoFraction i s1
    | EmptyString => scanNoFraction i s1
    end.

Definition scanSigned (neg : bool) (body : string)
  : option (bool * StrUnsigned * string) :=
  match scanUnsigned body with
  | Some (u, rest) => Some (neg, u, rest)
  | None => None
  end.

(** The longest prefix that is a StrDecimalLiteral: its sign, its body and
    the rest of the string; [None] when no prefix is one. *)
Definition scanLiteral (s : string) : option (bool * StrUnsigned * string) :=
  match s with
  | String c r =>
      if Ascii.eqb c "+" then scanSigned false r
      else if Ascii.eqb c "-" then scanSigned true r
      else scanSigned false s
  | EmptyString => scanSigned false s
  end.

(** The Number value of [d * 10^e] for [d > 0], correctly rounded. *)
Definition roundDecimal (neg : bool) (d e : Z) : Number :=
  if 0 <=? e then binary_round prec emax neg (Z.to_pos (d * 10 ^ e)) 0
  else
    let '(q, e', l) := SFdiv_core_binary prec emax d 0 (10 ^ (- e)) 0 in
    binary_round_aux prec emax neg q e' l.

(** StringNumericValue of the scanned literal. *)
Definition literalValue (neg : bool) (u : StrUnsigned) : Number :=
  match u with
  | LitInfinity => S754_infinity neg
  | LitDecimal i f e =>
      let d := digitsValue 0 (i ++ f) in
      if d =? 0 then S754_zero neg
      else roundDecimal neg d (e - Z.of_nat (String.length f))
  end.

Definition startsWithDigit (t : string) : bool :=
  match t with
  | EmptyString => false
  | String c _ => isDigit c
  end.

Definition parseFloat (s : string) : Number :=
  match scanLiteral (trimStart s) with
  | Some (neg, u, _) => literalValue neg u
  | None => NaN
  end.

(** *** The grammar of StrDecimalLiteral

    What [parseFloat] looks for, as the grammar of the language gives it,
    with the parts that make up the value:

      StrDecimalLiteral ::: StrUnsignedDecimalLiteral
                          | + StrUnsignedDecimalLiteral
                          | - StrUnsignedDecimalLiteral
      StrUnsignedDecimalLiteral ::: Infinity
                          | DecimalDigits . DecimalDigits(opt) ExponentPart(opt)
                          | . DecimalDigits ExponentPart(opt)
                          | DecimalDigits ExponentPart(opt)
      ExponentPart ::: ExponentIndicator SignedInteger

    [scanLiteral] is the scanner for it; the two are related in
    [GrammarFacts] below. *)

Definition isEmpty (s : string) : bool :=
  match s with
  | EmptyString => true
  | _ => false
  end.

(** DecimalDigits: one digit or more. *)
Definition isDecimalDigits (s : string) : bool :=
  negb (isEmpty s) && JSString.allChars isDigit s.

(** An ExponentPart and its value; the empty text stands for the absent
    ExponentPart. *)
Inductive ExponentPart : string -> Z -> Prop :=
| NoExponent : ExponentPart "" 0
| ExponentUnsigned c ds :
    isExponentIndicator c = true -> isDecimalDigits ds = true ->
    ExponentPart (String c ds) (digitsValue 0 ds)
| ExponentPlus c ds :
    isExponentIndicator c = true -> isDecimalDigits ds = true ->
    ExponentPart (String c (String "+" ds)) (digitsValue 0 ds)
| ExponentMinus c ds :
    isExponentIndicator c = true -> isDecimalDigits ds = true ->
    ExponentPart (String c (String "-" ds)) (- digitsValue 0 ds).

Inductive StrUnsignedDecimalLiteral : string -> StrUnsigned -> Prop :=
| UnsignedInfinity : StrUnsignedDecimalLiteral "Infinity" LitInfinity
| UnsignedPoint i f ex e :
    JSString.allChars isDigit i = true -> JSString.allChars isDigit f = true ->
    isEmpty i && isEmpty f = false ->
    ExponentPart ex e ->
    StrUnsignedDecimalLiteral (i ++ "." ++ f ++ ex) (LitDecimal i f e)
| UnsignedInteger i ex e :
    isDecimalDigits i = true ->
    ExponentPart ex e ->
    StrUnsignedDecimalLiteral (i ++ ex) (LitDecimal i "" e).

(** [StrDecimalLiteral p neg u]: the text [p] is a literal, with the sign and
    the parts [literalValue] takes. *)
Inductive StrDecimalLiteral : string -> bool -> StrUnsigned -> Prop :=
| LiteralUnsigned b u :
    StrUnsignedDecimalLiteral b u -> StrDecimalLiteral b false u
| LiteralPlus b u :
    StrUnsignedDecimalLiteral b u -> StrDecimalLiteral (String "+" b) false u
| LiteralMinus b u :
    StrUnsignedDecimalLiteral b u -> StrDecimalLiteral (String "-" b) true u.

(** Some prefix of [s] is a literal. *)
Definition hasNumericPrefix (s : string) : Prop :=
  exists p t neg u, s = p ++ t /\ StrDecimalLiteral p neg u.

(** [t] starts with an ExponentPart: an indicator, an optional sign and a
    digit. *)
Definition startsWithExponent (t : string) : bool :=
  match t with
  | String c (String d r) =>
      isExponentIndicator c
      && (isDigit d || ((Ascii.eqb d "+" || Ascii.eqb d "-") && startsWithDigit r))
  | _ => false
  end.

(** [p] has a decimal point or an exponent indicator. *)
Definition hasPointOrExponent (p : string) : bool :=
  negb (JSString.allChars
          (fun c => negb (Ascii.eqb c "." || isExponentIndicator c)) p).

(** The text [t] that follows the literal [p] cannot make it longer: [t] is
    empty, or it starts with no digit and with no ExponentPart, and with a
    point only when [p] has a point or an exponent already.  Letters
    (["abc"], ["EUR"], ["euro"], a lone ["e"]), spaces and other signs all
    qualify. *)
Definition cannotExtend (p t : string) : bool :=
  match t with
  | EmptyString => true
  | String c _ =>
      negb (isDigit c) && negb (startsWithExponent t)
      && (negb (Ascii.eqb c ".") || hasPointOrExponent p)
  end.

End JSParse.

(** ** The program state of [main.js] *)

Module App.
Import JSNumber JSParse.

(** One entry of [rates]: [{buy, sell}]. *)
Record Rate : Type := { buy : Number; sell : Number }.

(** The document of [/rates.json].  [rates] lists the own properties of the
    [rates] object in the order of [Object.entries]; a JSON object has each
    key once. *)
Record RatesData : Type := {
  updated : string;
  rates : list (string * Rate)
}.

Fixpoint assoc {A : Type} (k : string) (l : list (string * A)) : option A :=
  match l with
  | [] => None
  | (k', v) :: l' => if String.eqb k k' then Some v else assoc k l'
  end.

(** What an ordinary object inherits from [Object.prototype]: functions
    (whose [name] property is a string) and, under [__proto__], the prototype
    object itself. *)
Inductive Builtin : Type :=
| BFunction (fname : string)
| BObjectPrototype.

Definition objectPrototype : list (string * Builtin) :=
  [ ("constructor", BFunction "Object");
    ("__defineGetter__", BFunction "__defineGetter__");
    ("__defineSetter__", BFunction "__defineSetter__");
    ("hasOwnProperty", BFunction "hasOwnProperty");
    ("__lookupGetter__", BFunction "__lookupGetter__");
    ("__lookupSetter__", BFunction "__lookupSetter__");
    ("isPrototypeOf", BFunction "isPrototypeOf");
    ("propertyIsEnumerable", BFunction "propertyIsEnumerable");
    ("toString", BFunction "toString");
    ("valueOf", BFunction "valueOf");
    ("toLocaleString", BFunction "toLocaleString");
    ("__proto__", BObjectPrototype) ].

(** The value of [obj[key]] for an object with own properties [own]: an own
    property first, then the prototype, else [undefined]. *)
Inductive Property (A : Type) : Type :=
| POwn (v : A)
| PInherited (b : Builtin)
| PUndefined.
Arguments POwn {A} v.
Arguments PInherited {A} b.
Arguments PUndefined {A}.

Definition getProperty {A : Type} (own : list (string * A)) (key : string)
  : Property A :=
  match assoc key own with
  | Some v => POwn v
  | None =>
      match assoc key objectPrototype with
      | Some b => PInherited b
      | None => PUndefined
      end
  end.

(** [key] names a member of [Object.prototype]. *)
Definition inheritedKey (key : string) : bool :=
  match assoc key objectPrototype with
  | Some _ => true
  | None => false
  end.

(** [ToBoolean] of a property value: only [undefined] is falsy here (rates
    and built-ins are objects). *)
Definition truthy {A : Type} (p : Property A) : bool :=
  match p with
  | PUndefined => false
  | _ => true
  end.

(** [CURRENCY_CONFIG] *)
Record CurrencyInfo : Type := {
  info_name : string;
  info_flag : string;
  info_symbol : string
}.

Definition CURRENCY_CONFIG : list (string * CurrencyInfo) :=
  [ ("USD", {| info_name := "US Dollar"; info_flag := "🇺🇸"; info_symbol := "$" |});
    ("QAR", {| info_name := "Qatar Riyal"; info_flag := "🇶🇦"; info_symbol := "QR" |});
    ("MYR", {| info_name := "Malaysian Ringgit"; info_flag := "🇲🇾"; info_symbol := "RM" |});
    ("AED", {| info_name := "UAE Dirham"; info_flag := "🇦🇪"; info_symbol := "د.إ" |});
    ("SAR", {| info_name := "Saudi Riyal"; info_flag := "🇸🇦"; info_symbol := "SR" |}) ].

(** The DOM elements of [elements]; a missing element is [None].  Only the
    properties the program reads or writes are kept. *)
Record ResultAmount : Type := {
  ra_textContent : string;
  ra_color : string
}.

(** The text of [#lastUpdated].  The date line is kept symbolic: it is
    ["Last updated: "] (after a calendar glyph) followed by the host's
    [toLocaleDateString] of [updated]. *)
Inductive LastUpdatedText : Type :=
| LUText (s : string)
| LUDate (updatedField : string).

Record LastUpdated : Type := {
  lu_textContent : LastUpdatedText;
  lu_background : string;
  lu_color : string
}.

Record Elements : Type := {
  currency : option string;          (* value of the currency control *)
  amount : option string;            (* value of the amount input *)
  convertBtn : bool;                 (* whether the button exists *)
  resultBox : option string;         (* style.transform *)
  resultAmount : option ResultAmount;
  resultRate : option string;        (* textContent *)
  lastUpdated : option LastUpdated;
  ratesBody : option string          (* innerHTML *)
}.

(** A callback handed to [setTimeout] by [convertCurrency]: the reset of the
    scale animation. *)
Inductive Task : Type := ResetScale.

Record World : Type := {
  ratesData : option RatesData;
  isLoading : bool;
  elements : Elements;
  scheduled : list (Z * Task)        (* delay and callback of each setTimeout *)
}.

Definition initialWorld (els : Elements) : World :=
  {| ratesData := None; isLoading := true; elements := els; scheduled := [] |}.

Inductive Completion : Type := Normal | ThrowTypeError.

Definition withElements (f : Elements -> Elements) (w : World) : World :=
  {| ratesData := ratesData w; isLoading := isLoading w;
     elements := f (elements w); scheduled := scheduled w |}.

Definition setResultAmount (v : option ResultAmount) (e : Elements) : Elements :=
  {| currency := currency e; amount := amount e; convertBtn := convertBtn e;
     resultBox := resultBox e; resultAmount := v; resultRate := resultRate e;
     lastUpdated := lastUpdated e; ratesBody := ratesBody e |}.

Definition setResultRate (v : option string) (e : Elements) : Elements :=
  {| currency := currency e; amount := amount e; convertBtn := convertBtn e;
     resultBox := resultBox e; resultAmount := resultAmount e; resultRate := v;
     lastUpdated := lastUpdated e; ratesBody := ratesBody e |}.

Definition setResultBox (v : option string) (e : Elements) : Elements :=
  {| currency := currency e; amount := amount e; convertBtn := convertBtn e;
     resultBox := v; resultAmount := resultAmount e; resultRate := resultRate e;
     lastUpdated := lastUpdated e; ratesBody := ratesBody e |}.

Definition setLastUpdated (v : option LastUpdated) (e : Elements) : Elements :=
  {| currency := currency e; amount := amount e; convertBtn := convertBtn e;
     resultBox := resultBox e; resultAmount := resultAmount e;
     resultRate := resultRate e; lastUpdated := v; ratesBody := ratesBody e |}.

Definition setRatesBody (v : option string) (e : Elements) : Elements :=
  {| currency := currency e; amount := amount e; convertBtn := convertBtn e;
     resultBox := resultBox e; resultAmount := resultAmount e;
     resultRate := resultRate e; lastUpdated := lastUpdated e; ratesBody := v |}.

(** ** [formatNPR] *)

(** The [while (remaining.length > 0)] loop of [formatNPR].  Each round
    shortens [remaining], so [String.length remaining] rounds are enough
    ([groupLoop_fuel] below). *)
Fixpoint groupLoop (fuel : nat) (remaining formatted : string) : string :=
  match fuel with
  | O => formatted
  | S fuel' =>
      if 0 <? JSString.length remaining then
        groupLoop fuel'
          (JSString.slice remaining 0 (Some (-2)))
          (JSString.slice remaining (-2) None ++ "," ++ formatted)
      else formatted
  end.

(** The block that computes [formatted] from [intPart]: at most three
    characters are kept as they are, otherwise the last three and then
    groups of two. *)
Definition groupCode (intPart : string) : string :=
  if JSString.length intPart <=? 3 then intPart
  else groupLoop (String.length intPart)
         (JSString.slice intPart 0 (Some (-3)))
         (JSString.slice intPart (-3) None).

Definition formatNPR (amount : Number) : string :=
  if strictEq amount posZero then "रू 0.00"
  else
    let parts := JSString.split "." (toFixed amount 2) in
    let intPart := nth 0 parts "" in
    let decPart := nth_error parts 1 in
    let isNegative := JSString.startsWith intPart "-" in
    let intPart := if isNegative then JSString.substring intPart 1 else intPart in
    let formatted := groupCode intPart in
    (if isNegative then "-" else "") ++ "रू " ++ formatted ++ "."
      ++ JSString.toStringOpt decPart.

(** ** [showConversionError], [showError] *)

Definition showConversionError (message : string) (w : World) : World :=
  match resultAmount (elements w) with
  | Some _ =>
      withElements
        (setResultAmount
           (Some {| ra_textContent := message; ra_color := "#dc3545" |})) w
  | None => w
  end.

Definition nl : string := String (ascii_of_nat 10) "".
Definition dq : string := String (ascii_of_nat 34) "".
Definition indent12 : string := "            ".
Definition indent16 : string := "                ".
Definition indent20 : string := "                    ".
Definition indent24 : string := "                        ".

Definition errorRow : string :=
  nl ++ indent16 ++ "<tr>" ++
  nl ++ indent20 ++ "<td colspan=" ++ dq ++ "3" ++ dq ++ " class=" ++ dq
     ++ "error-cell" ++ dq ++ ">" ++
  nl ++ indent24 ++ "Unable to load exchange rates. Please refresh the page." ++
  nl ++ indent20 ++ "</td>" ++
  nl ++ indent16 ++ "</tr>" ++
  nl ++ indent12.

Definition showError (w : World) : World :=
  let w1 :=
    match lastUpdated (elements w) with
    | Some _ =>
        withElements
          (setLastUpdated
             (Some {| lu_textContent :=
                        LUText "⚠️ Unable to load rates. Please refresh.";
                      lu_background := "#f8d7da";
                      lu_color := "#721c24" |})) w
    | None => w
    end in
  let w2 :=
    match ratesBody (elements w1) with
    | Some _ => withElements (setRatesBody (Some errorRow)) w1
    | None => w1
    end in
  match resultAmount (elements w2) with
  | Some ra =>
      withElements
        (setResultAmount
           (Some {| ra_textContent := "Rates unavailable";
                    ra_color := ra_color ra |})) w2
  | None => w2
  end.

(** ** [updateLastUpdated], [updateRatesTable] *)

Definition updateLastUpdated (w : World) : World :=
  match lastUpdated (elements w), ratesData w with
  | Some lu, Some data =>
      withElements
        (setLastUpdated
           (Some {| lu_textContent := LUDate (updated data);
                    lu_background := lu_background lu;
                    lu_color := lu_color lu |})) w
  | _, _ => w
  end.

(** [config.name] and [config.flag] for
    [CURRENCY_CONFIG[code] || { name: code, flag: ... }]; either may be
    [undefined] when the lookup lands on an inherited built-in. *)
Definition configNameFlag (code : string) : option string * option string :=
  match getProperty CURRENCY_CONFIG code with
  | POwn c => (Some (info_name c), Some (info_flag c))
  | PInherited (BFunction fname) => (Some fname, None)
  | PInherited BObjectPrototype => (None, None)
  | PUndefined => (Some code, Some "🏳️")
  end.

(** One row of the table, cell by cell. *)
Record Row : Type := {
  row_label : string;
  row_buy : string;
  row_sell : string
}.

Definition rowOf (entry : string * Rate) : Row :=
  let (code, rate) := entry in
  let (name, flag) := configNameFlag code in
  {| row_label := JSString.toStringOpt flag ++ " " ++ code ++ " - "
                    ++ JSString.toStringOpt name;
     row_buy := toFixed (buy rate) 2;
     row_sell := toFixed (sell rate) 2 |}.

Definition renderRow (r : Row) : string :=
  nl ++ indent16 ++ "<tr>" ++
  nl ++ indent20 ++ "<td>" ++ row_label r ++ "</td>" ++
  nl ++ indent20 ++ "<td>" ++ row_buy r ++ "</td>" ++
  nl ++ indent20 ++ "<td>" ++ row_sell r ++ "</td>" ++
  nl ++ indent16 ++ "</tr>" ++
  nl ++ indent12.

Definition tableRows (data : RatesData) : list Row := map rowOf (rates data).

Definition tableHtml (data : RatesData) : string :=
  fold_left (fun html r => html ++ renderRow r) (tableRows data) "".

Definition updateRatesTable (w : World) : World :=
  match ratesBody (elements w), ratesData w with
  | Some _, Some data => withElements (setRatesBody (Some (tableHtml data))) w
  | _, _ => w
  end.

(** ** [convertCurrency] *)

(** [ratesData.rates[currency].sell]: [undefined] on a built-in. *)
Definition sellOf (p : Property Rate) : option Number :=
  match p with
  | POwn r => Some (sell r)
  | _ => None
  end.

(** [ToNumber] of the operand of [*]: [undefined] becomes NaN. *)
Definition toNumber (v : option Number) : Number :=
  match v with
  | Some x => x
  | None => NaN
  end.

(** [parseFloat(elements.amount.value) || 0] *)
Definition amountOf (rawAmount : string) : Number :=
  orZero (parseFloat rawAmount).

Definition animate (w : World) : World :=
  match resultBox (elements w) with
  | Some _ =>
      let w1 := withElements (setResultBox (Some "scale(1.02)")) w in
      {| ratesData := ratesData w1; isLoading := isLoading w1;
         elements := elements w1;
         scheduled := scheduled w1 ++ [(150, ResetScale)] |}
  | None => w
  end.

(** The [setTimeout] callback of the animation. *)
Definition runTask (t : Task) (w : World) : World :=
  match t with
  | ResetScale =>
      match resultBox (elements w) with
      | Some _ => withElements (setResultBox (Some "scale(1)")) w
      | None => w
      end
  end.

Definition writeResult (formattedResult : string) (w : World) : World :=
  match resultAmount (elements w) with
  | Some ra =>
      withElements
        (setResultAmount
           (Some {| ra_textContent := formattedResult;
                    ra_color := ra_color ra |})) w
  | None => w
  end.

Definition writeRate (text : string) (w : World) : World :=
  match resultRate (elements w) with
  | Some _ => withElements (setResultRate (Some text)) w
  | None => w
  end.

Definition convertCurrency (w : World) : World * Completion :=
  match ratesData w, currency (elements w), amount (elements w) with
  | Some data, Some currencyValue, Some amountValue =>
      let amount := amountOf amountValue in
      let entry := getProperty (rates data) currencyValue in
      if negb (truthy entry) then
        (showConversionError "Currency not available" w, Normal)
      else
        let rate := sellOf entry in
        let result := mul amount (toNumber rate) in
        let formattedResult := formatNPR result in
        match rate with
        | None => (w, ThrowTypeError)     (* rate.toFixed on undefined *)
        | Some rateValue =>
            let formattedRate := toFixed rateValue 2 in
            let w1 := writeResult formattedResult w in
            let w2 :=
              writeRate ("1 " ++ currencyValue ++ " = NPR " ++ formattedRate) w1 in
            (animate w2, Normal)
        end
  | _, _, _ => (w, Normal)
  end.

(** ** [loadRates] *)

(** How the [fetch] of [/rates.json] ends: with the parsed document, or with
    a network error, a response that is not ok, or a body that is not JSON. *)
Inductive FetchOutcome : Type :=
| FetchJson (data : RatesData)
| FetchFailed.

Definition setLoaded (data : option RatesData) (w : World) : World :=
  {| ratesData := data; isLoading := false;
     elements := elements w; scheduled := scheduled w |}.

Definition nonEmpty (s : string) : bool :=
  match s with
  | EmptyString => false
  | _ => true
  end.

Definition loadRates (outcome : FetchOutcome) (w : World) : World :=
  match outcome with
  | FetchJson data =>
      let w1 := setLoaded (Some data) w in
      let w2 := updateRatesTable (updateLastUpdated w1) in
      match amount (elements w2) with
      | Some v =>
          if nonEmpty v then
            match convertCurrency w2 with
            | (w3, Normal) => w3
            | (w3, ThrowTypeError) => showError (setLoaded (ratesData w3) w3)
            end
          else w2
      | None => w2
      end
  | FetchFailed => showError (setLoaded (ratesData w) w)
  end.

(** What the page shows in the result area and in the rate line. *)
Definition resultText (w : World) : option string :=
  option_map ra_textContent (resultAmount (elements w)).

Definition resultColor (w : World) : option string :=
  option_map ra_color (resultAmount (elements w)).

Definition rateText (w : World) : option string := resultRate (elements w).

(** The result area shows the unavailable indicator, the text [showError]
    writes. *)
Definition showsUnavailable (w : World) : Prop :=
  resultText w = Some "Rates unavailable".

(** What a function leaves alone when it only writes results: the
    snapshot, the loading flag, the two input controls, the date line and
    the table. *)
Definition sameInputsAndTable (w w' : World) : Prop :=
  ratesData w' = ratesData w
  /\ isLoading w' = isLoading w
  /\ currency (elements w') = currency (elements w)
  /\ amount (elements w') = amount (elements w)
  /\ convertBtn (elements w') = convertBtn (elements w)
  /\ lastUpdated (elements w') = lastUpdated (elements w)
  /\ ratesBody (elements w') = ratesBody (elements w).

(** The load status of the specification, read off the two state
    variables. *)
Inductive LoadStatus : Type := Loading | Ready | Failed.

Definition loadStatus (w : World) : LoadStatus :=
  match ratesData w with
  | Some _ => Ready
  | None => if isLoading w then Loading else Failed
  end.

End App.

(** ** Sample pages and snapshots *)

Module Examples.
Import JSNumber App.

(** A page with every element present and nothing displayed yet. *)
Definition page (code rawAmount : string) : Elements :=
  {| currency := Some code;
     amount := Some rawAmount;
     convertBtn := true;
     resultBox := Some "";
     resultAmount := Some {| ra_textContent := ""; ra_color := "" |};
     resultRate := Some "";
     lastUpdated :=
       Some {| lu_textContent := LUText ""; lu_background := ""; lu_color := "" |};
     ratesBody := Some "" |}.

(** The snapshot [{"XXX": {buy: 1, sell: 100}}]. *)
Definition rateXXX : Rate := {| buy := ofZ 1; sell := ofZ 100 |}.

Definition snapshotXXX : RatesData :=
  {| updated := "2024-01-01"; rates := [("XXX", rateXXX)] |}.

(** The page once [snapshotXXX] is held in [ratesData]. *)
Definition readyWorld (code rawAmount : string) : World :=
  {| ratesData := Some snapshotXXX; isLoading := false;
     elements := page code rawAmount; scheduled := [] |}.

(** The snapshot [{"XXX": {buy: 1, sell: 1e21}}], and the page once it is
    held in [ratesData]. *)
Definition rateLarge : Rate := {| buy := ofZ 1; sell := ofZ (10 ^ 21) |}.

Definition snapshotLarge : RatesData :=
  {| updated := "2024-01-01"; rates := [("XXX", rateLarge)] |}.

Definition largeRateWorld (code rawAmount : string) : World :=
  {| ratesData := Some snapshotLarge; isLoading := false;
     elements := page code rawAmount; scheduled := [] |}.

End Examples.

(** ** [debounce] over the host's timers

    [debounce(func, wait)] returns [executedFunction], which shares the
    variable [timeout] with the [later] callbacks it hands to [setTimeout].
    The host keeps the armed timers; a timer never runs before it is due, and
    what happens at an earlier instant is handled first.  Every run of
    [func] is recorded in [calls] with its time and arguments.

    The host is a punctual one: a timer runs at the instant it is due, and
    before an event that comes at that very instant ([takeDue] compares with
    [<=]).  A browser only promises that a timer does not run early, so the
    statements below keep events away from the instant a timer is due.  The
    host keeps the timers of [debounce] only: the resets of the scale
    animation that [convertCurrency] requests stay in [App.scheduled] as a
    record of the requests and are not run here, so the transform of the
    result box in [app] is the one the last conversion set. *)

Module Debounce.
Section WithAction.

Variable Args : Type.
Variable AppState : Type.
Variable func : Args -> AppState -> AppState.
Variable wait : Z.

(** An armed timer: its handle, when it is due, and the arguments its
    [later] closure captured. *)
Record Timer : Type := {
  handle : nat;
  due : Z;
  captured : Args
}.

Record Host : Type := {
  now : Z;
  timeout : option nat;              (* the closure variable [timeout] *)
  pending : list Timer;              (* timers armed and not yet run *)
  nextHandle : nat;
  app : AppState;
  calls : list (Z * Args)            (* runs of [func] so far *)
}.

Definition idle (t0 : Z) (a : AppState) : Host :=
  {| now := t0; timeout := None; pending := []; nextHandle := 1%nat;
     app := a; calls := [] |}.

(** [clearTimeout(id)]: nothing happens for [undefined] or for a handle that
    is no longer armed. *)
Definition clearTimeout (id : option nat) (ts : list Timer) : list Timer :=
  match id with
  | None => ts
  | Some i => filter (fun t => negb (Nat.eqb (handle t) i)) ts
  end.

(** [executedFunction(...args)] *)
Definition executedFunction (args : Args) (h : Host) : Host :=
  let cleared := clearTimeout (timeout h) (pending h) in
  let id := nextHandle h in
  {| now := now h;
     timeout := Some id;
     pending := cleared ++ [{| handle := id; due := now h + wait; captured := args |}];
     nextHandle := S id;
     app := app h;
     calls := calls h |}.

(** [later()], for the closure that captured [args] *)
Definition later (args : Args) (h : Host) : Host :=
  {| now := now h;
     timeout := timeout h;
     pending := clearTimeout (timeout h) (pending h);
     nextHandle := nextHandle h;
     app := func args (app h);
     calls := calls h ++ [(now h, args)] |}.

(** The first armed timer that is due at [t], and the others. *)
Fixpoint takeDue (t : Z) (ts : list Timer) : option (Timer * list Timer) :=
  match ts with
  | [] => None
  | tm :: ts' =>
      if due tm <=? t then Some (tm, ts')
      else match takeDue t ts' with
           | Some (d, rest) => Some (d, tm :: rest)
           | None => None
           end
  end.

(** The host runs the timers that are due at [t]; a callback runs at its due
    time, or at the present instant when that is already past. *)
Fixpoint fireDue (fuel : nat) (t : Z) (h : Host) : Host :=
  match fuel with
  | O => h
  | S fuel' =>
      match takeDue t (pending h) with
      | None => h
      | Some (tm, rest) =>
          fireDue fuel' t
            (later (captured tm)
               {| now := Z.max (now h) (due tm);
                  timeout := timeout h;
                  pending := rest;
                  nextHandle := nextHandle h;
                  app := app h;
                  calls := calls h |})
      end
  end.

(** Time passes until [t]: all timers due by then have run. *)
Definition advance (t : Z) (h : Host) : Host :=
  let h' := fireDue (List.length (pending h)) t h in
  {| now := Z.max (now h') t;
     timeout := timeout h';
     pending := pending h';
     nextHandle := nextHandle h';
     app := app h';
     calls := calls h' |}.

(** A debounced trigger arrives at time [t] with arguments [args]. *)
Definition trigger (ev : Z * Args) (h : Host) : Host :=
  executedFunction (snd ev) (advance (fst ev) h).

(** The host states after each of the triggers [evs], in order. *)
Fixpoint runTrace (evs : list (Z * Args)) (h : Host) : list Host :=
  match evs with
  | [] => []
  | ev :: evs' => let h' := trigger ev h in h' :: runTrace evs' h'
  end.

Definition run (evs : list (Z * Args)) (h : Host) : Host :=
  fold_left (fun h ev => trigger ev h) evs h.

(** Each trigger after the first comes less than [wait] after the one
    before. *)
Fixpoint closelySpaced (prev : Z) (evs : list (Z * Args)) : Prop :=
  match evs with
  | [] => True
  | ev :: evs' => prev <= fst ev < prev + wait /\ closelySpaced (fst ev) evs'
  end.

(** The host right after a trigger at [t] with [a]: one timer is armed, the
    one [timeout] names, due a full interval later. *)
Definition armed (h : Host) (t : Z) (a : Args) : Prop :=
  now h = t
  /\ exists id, timeout h = Some id
                /\ pending h = [{| handle := id; due := t + wait; captured := a |}].

(** No timer is armed, or exactly one, which is the one [timeout] names. *)
Definition atMostOneTimer (h : Host) : Prop :=
  pending h = []
  \/ exists tm, pending h = [tm] /\ timeout h = Some (handle tm).

(** Each trigger after the first comes more than [wait] after the one
    before. *)
Fixpoint wellSpaced (prev : Z) (evs : list (Z * Args)) : Prop :=
  match evs with
  | [] => True
  | ev :: evs' => prev + wait < fst ev /\ wellSpaced (fst ev) evs'
  end.

(** A direct call of [func] at time [t], not through [executedFunction]
    (the listeners of click, change and Enter call it this way). *)
Definition immediate (t : Z) (args : Args) (h : Host) : Host :=
  let h1 := advance t h in
  {| now := now h1;
     timeout := timeout h1;
     pending := pending h1;
     nextHandle := nextHandle h1;
     app := func args (app h1);
     calls := calls h1 |}.

End WithAction.

Arguments handle {Args} _.
Arguments due {Args} _.
Arguments captured {Args} _.
Arguments now {Args AppState} _.
Arguments timeout {Args AppState} _.
Arguments pending {Args AppState} _.
Arguments nextHandle {Args AppState} _.
Arguments app {Args AppState} _.
Arguments calls {Args AppState} _.
Arguments idle {Args AppState} t0 a.
Arguments clearTimeout {Args} id ts.
Arguments executedFunction {Args AppState} wait args h.
Arguments later {Args AppState} func args h.
Arguments takeDue {Args} t ts.
Arguments fireDue {Args AppState} func fuel t h.
Arguments advance {Args AppState} func t h.
Arguments trigger {Args AppState} func wait ev h.
Arguments runTrace {Args AppState} func wait evs h.
Arguments run {Args AppState} func wait evs h.
Arguments closelySpaced {Args} wait prev evs.
Arguments armed {Args AppState} wait h t a.
Arguments atMostOneTimer {Args AppState} h.
Arguments wellSpaced {Args} wait prev evs.
Arguments immediate {Args AppState} func t args h.

(** [bindEvents]: the [input] listener of the amount field is
    [debounce(convertCurrency, 300)].  The event object it receives is
    ignored by [convertCurrency]; an exception thrown inside a timer
    callback is reported by the host and goes no further. *)
Definition inputWait : Z := 300.

Definition convertAction (_ : unit) (w : App.World) : App.World :=
  fst (App.convertCurrency w).

Definition onAmountInput (t : Z) (h : Host unit App.World) : Host unit App.World :=
  trigger convertAction inputWait (t, tt) h.

(** [bindEvents]: which listener each event of the page reaches.  A
    listener exists only when its element does; the keypress listener acts
    on the Enter key alone. *)
Inductive DomEvent : Type :=
| ClickConvert
| KeypressAmount (key : string)
| InputAmount
| ChangeCurrency.

Inductive Reaction : Type := RunNow | RunDebounced | Ignore.

Definition bindEvents (els : App.Elements) (ev : DomEvent) : Reaction :=
  match ev with
  | ClickConvert => if App.convertBtn els then RunNow else Ignore
  | KeypressAmount key =>
      match App.amount els with
      | Some _ => if String.eqb key "Enter" then RunNow else Ignore
      | None => Ignore
      end
  | InputAmount =>
      match App.amount els with
      | Some _ => RunDebounced
      | None => Ignore
      end
  | ChangeCurrency =>
      match App.currency els with
      | Some _ => RunNow
      | None => Ignore
      end
  end.

(** The page reacts to the event [ev] at time [t]. *)
Definition dispatch (t : Z) (ev : DomEvent) (h : Host unit App.World)
  : Host unit App.World :=
  match bindEvents (App.elements (app h)) ev with
  | RunNow => immediate convertAction t tt h
  | RunDebounced => onAmountInput t h
  | Ignore => advance convertAction t h
  end.

End Debounce.

(** ** The NumberFormatter of the specification

    Section 4.3 of the specification, written from its words and
    independently of [formatNPR]: round to two decimals, split into integer
    part and two fractional digits, keep the sign aside, group the integer
    digits (the last three, then pairs leftwards), and assemble
    [sign prefix " " grouped "." fraction].  It is defined on finite amounts
    only. *)

Module Spec.
Import JSNumber.

Definition currencyPrefix : string := "रू".

(** The absolute value [m * 2^e] of a finite amount, as a rational. *)
Definition magnitude (m : positive) (e : Z) : QArith_base.Q :=
  if 0 <=? e then QArith_base.inject_Z (Zpos m * 2 ^ e)
  else QArith_base.Qmake (Zpos m) (Z.to_pos (2 ^ (- e))).

(** Step 1: the amount rounded to two decimals, counted in hundredths
    (halves go up in absolute value). *)
Definition roundedHundredths (m : positive) (e : Z) : Z :=
  Qround.Qfloor
    (QArith_base.Qplus
       (QArith_base.Qmult (magnitude m e) (QArith_base.inject_Z 100))
       (QArith_base.Qmake 1 2)).

Definition twoDigits (n : Z) : string :=
  String (digitChar (n / 10)) (String (digitChar (n mod 10)) "").

(** Step 4, on the digits read from the right: every pair of digits beyond
    the last three is set off by a separator; the leftover of one or two
    digits is the leftmost group. *)
Fixpoint pairsLeftwards (digitsFromRight : list ascii) : list ascii :=
  match digitsFromRight with
  | [] => []
  | [a] => ["," % char; a]
  | a :: b :: rest => "," % char :: a :: b :: pairsLeftwards rest
  end.

(** Steps 3 and 4. *)
Definition groupDigits (digits : string) : string :=
  if (String.length digits <=? 3)%nat then digits
  else
    let fromRight := rev (list_ascii_of_string digits) in
    string_of_list_ascii
      (rev (firstn 3 fromRight ++ pairsLeftwards (skipn 3 fromRight))).

(** Steps 1 to 6. *)
Definition format (amount : Number) : option string :=
  match amount with
  | S754_zero _ => Some (currencyPrefix ++ " 0.00")
  | S754_finite s m e =>
      let h := roundedHundredths m e in
      Some ((if s then "-" else "") ++ currencyPrefix ++ " "
            ++ groupDigits (decimalDigits (h / 100)) ++ "."
            ++ twoDigits (h mod 100))
  | _ => None
  end.

(** A string of two decimal digits after the last point: what "carries
    exactly two decimal digits" asks of a formatted amount. *)
Definition allDigits (s : string) : bool :=
  JSString.allChars JSParse.isDigit s.

Definition hasTwoDecimals (s : string) : bool :=
  match rev (JSString.split "." s) with
  | frac :: _ :: _ => (String.length frac =? 2)%nat && allDigits frac
  | _ => false
  end.

End Spec.

(** * Facts about the built-ins *)

Module StringFacts.

Lemma append_nil_r (s : string) : s ++ "" = s.
Proof. induction s as [|c s IH]; simpl; [reflexivity | now rewrite IH]. Qed.

Lemma append_assoc (a b c : string) : (a ++ b) ++ c = a ++ (b ++ c).
Proof. induction a as [|x a IH]; simpl; [reflexivity | now rewrite IH]. Qed.

Lemma length_append (a b : string) :
  String.length (a ++ b) = (String.length a + String.length b)%nat.
Proof. induction a as [|x a IH]; simpl; [reflexivity | now rewrite IH]. Qed.

Lemma substring_all (s : string) : String.substring 0 (String.length s) s = s.
Proof. induction s as [|c s IH]; simpl; [reflexivity | now rewrite IH]. Qed.

Lemma substring_zero (n : nat) (s : string) : String.substring n 0 s = "".
Proof.
  revert n; induction s as [|c s IH]; intros [|n]; simpl; auto.
Qed.

Lemma substring_skip (a b : string) (n : nat) :
  String.substring (String.length a) n (a ++ b) = String.substring 0 n b.
Proof. induction a as [|x a IH]; simpl; [reflexivity | exact IH]. Qed.

Lemma substring_take (a b : string) :
  String.substring 0 (String.length a) (a ++ b) = a.
Proof.
  induction a as [|x a IH]; simpl.
  - apply substring_zero.
  - now rewrite IH.
Qed.

Lemma allChars_append p a b :
  JSString.allChars p (a ++ b) = JSString.allChars p a && JSString.allChars p b.
Proof.
  induction a as [|x a IH]; simpl; [reflexivity |].
  now rewrite IH, andb_assoc.
Qed.

Lemma split_without sep s :
  JSString.allChars (JSString.notChar sep) s = true -> JSString.split sep s = [s].
Proof.
  induction s as [|c s IH]; simpl; [reflexivity |].
  unfold JSString.notChar at 1. intros H. apply andb_prop in H as [Hc Hs].
  apply negb_true_iff in Hc. rewrite Hc, (IH Hs). reflexivity.
Qed.

Lemma split_at_sep sep a b :
  JSString.allChars (JSString.notChar sep) a = true ->
  JSString.split sep (a ++ String sep b) = a :: JSString.split sep b.
Proof.
  induction a as [|c a IH]; simpl.
  - intros _. now rewrite Ascii.eqb_refl.
  - unfold JSString.notChar at 1. intros H. apply andb_prop in H as [Hc Ha].
    apply negb_true_iff in Hc. rewrite Hc, (IH Ha). reflexivity.
Qed.

End StringFacts.

Module DigitFacts.
Import JSNumber StringFacts.

Lemma aux_acc fuel : forall n acc,
  decimalDigits_aux fuel n acc = decimalDigits_aux fuel n "" ++ acc.
Proof.
  induction fuel as [|fuel IH]; intros n acc; simpl; [reflexivity |].
  destruct (n <? 10); [reflexivity |].
  rewrite (IH (n / 10) (String _ acc)), (IH (n / 10) (String _ "")).
  now rewrite append_assoc.
Qed.

(** Fuel beyond the number of digits changes nothing. *)
Lemma aux_fuel k : forall n acc f1 f2,
  0 <= n < 10 ^ Z.of_nat (S k) -> (k < f1)%nat -> (k < f2)%nat ->
  decimalDigits_aux f1 n acc = decimalDigits_aux f2 n acc.
Proof.
  induction k as [|k IH]; intros n acc f1 f2 Hn H1 H2;
    destruct f1 as [|f1]; try lia; destruct f2 as [|f2]; try lia; simpl.
  - change (10 ^ Z.of_nat 1) with 10 in Hn.
    destruct (Z.ltb_spec n 10); [reflexivity | lia].
  - destruct (Z.ltb_spec n 10); [reflexivity |].
    apply IH; try lia.
    rewrite Nat2Z.inj_succ, Z.pow_succ_r in Hn by lia.
    split; [apply Z.div_pos; lia |].
    apply Z.div_lt_upper_bound; lia.
Qed.

Lemma below_pow10_log2 n : 0 <= n -> n < 10 ^ Z.of_nat (S (Z.to_nat (Z.log2 n))).
Proof.
  intros Hn.
  destruct (Z.eq_dec n 0) as [->|Hnz]; [reflexivity |].
  rewrite Nat2Z.inj_succ, Z2Nat.id by apply Z.log2_nonneg.
  assert (H : n < 2 ^ Z.succ (Z.log2 n)) by (apply Z.log2_spec; lia).
  eapply Z.lt_le_trans; [exact H |].
  apply Z.pow_le_mono_l. lia.
Qed.

(** [decimalDigits] with any sufficient fuel. *)
Lemma decimalDigits_fuel n f :
  0 <= n -> (Z.to_nat (Z.log2 n) < f)%nat ->
  decimalDigits_aux f n "" = decimalDigits n.
Proof.
  intros Hn Hf. unfold decimalDigits.
  apply (aux_fuel (Z.to_nat (Z.log2 n))); try lia.
  split; [exact Hn | now apply below_pow10_log2].
Qed.

Lemma decimalDigits_small n : 0 <= n < 10 ->
  decimalDigits n = String (digitChar n) "".
Proof.
  intros Hn. unfold decimalDigits. simpl.
  destruct (Z.ltb_spec n 10); [| lia].
  now rewrite Z.mod_small by lia.
Qed.

Lemma decimalDigits_step n : 10 <= n ->
  decimalDigits n = decimalDigits (n / 10) ++ String (digitChar (n mod 10)) "".
Proof.
  intros Hn. unfold decimalDigits at 1. simpl.
  destruct (Z.ltb_spec n 10); [lia |].
  rewrite aux_acc. f_equal.
  apply decimalDigits_fuel.
  - apply Z.div_pos; lia.
  - assert (Z.log2 (n / 10) < Z.log2 n).
    { assert (Hd : n / 10 <= n / 2 ^ 1).
      { change (2 ^ 1) with 2. apply Z.div_le_compat_l; lia. }
      rewrite <- Z.shiftr_div_pow2 in Hd by lia.
      assert (Hl := Z.log2_le_mono _ _ Hd).
      rewrite Z.log2_shiftr in Hl by lia.
      assert (1 <= Z.log2 n) by (apply Z.log2_le_pow2; simpl; lia).
      lia. }
    assert (0 <= Z.log2 (n / 10)) by apply Z.log2_nonneg.
    lia.
Qed.

Lemma isDigit_digitChar d : 0 <= d < 10 -> JSParse.isDigit (digitChar d) = true.
Proof.
  intros Hd.
  assert (Hc : d = 0 \/ d = 1 \/ d = 2 \/ d = 3 \/ d = 4 \/ d = 5 \/ d = 6
               \/ d = 7 \/ d = 8 \/ d = 9) by lia.
  repeat (destruct Hc as [-> | Hc]; [reflexivity |]). subst; reflexivity.
Qed.

(** Strong induction on a non-negative integer, by digits. *)
Lemma digits_ind (P : Z -> Prop) :
  (forall n, 0 <= n < 10 -> P n) ->
  (forall n, 10 <= n -> P (n / 10) -> P n) ->
  forall n, 0 <= n -> P n.
Proof.
  intros Hsmall Hstep n Hn.
  revert n Hn. apply (Zlt_0_ind P).
  intros m IH Hm.
  destruct (Z_lt_le_dec m 10) as [Hlt | Hge].
  - apply Hsmall; lia.
  - apply Hstep; [exact Hge |]. apply IH.
    split; [apply Z.div_pos; lia | apply Z.div_lt; lia].
Qed.

Lemma decimalDigits_allDigits n : 0 <= n ->
  JSString.allChars JSParse.isDigit (decimalDigits n) = true.
Proof.
  intros Hn. pattern n. apply digits_ind; trivial; clear n Hn.
  - intros n Hn. rewrite decimalDigits_small by lia.
    cbn [JSString.allChars]. now rewrite isDigit_digitChar.
  - intros n Hn IH. rewrite decimalDigits_step, allChars_append, IH by lia.
    cbn [JSString.allChars andb]. rewrite isDigit_digitChar; [reflexivity |].
    apply Z.mod_pos_bound; lia.
Qed.

Lemma decimalDigits_nonempty n : 0 <= n ->
  exists c rest, decimalDigits n = String c rest /\ JSParse.isDigit c = true.
Proof.
  intros Hn.
  assert (H := decimalDigits_allDigits n Hn).
  destruct (decimalDigits n) as [|c rest] eqn:E.
  - exfalso. revert E. pattern n. apply digits_ind; trivial; clear.
    + intros n Hn. now rewrite decimalDigits_small.
    + intros n Hn _. rewrite decimalDigits_step by lia.
      destruct (decimalDigits (n / 10)); discriminate.
  - cbn [JSString.allChars] in H. apply andb_prop in H as [Hc _]. eauto.
Qed.

End DigitFacts.

Module FixedFacts.
Import JSNumber StringFacts DigitFacts.

Local Ltac zdiv := Z.to_euclidean_division_equations; lia.

Lemma digitChar_zero : digitChar 0 = "0"%char.
Proof. reflexivity. Qed.

Lemma roundScaled_nonneg f m e : 0 <= roundScaled f m e.
Proof.
  unfold roundScaled. destruct (0 <=? e) eqn:He.
  - apply Z.leb_le in He.
    assert (0 < 2 ^ e) by (apply Z.pow_pos_nonneg; lia).
    assert (0 < 10 ^ Z.of_nat f) by (apply Z.pow_pos_nonneg; lia).
    nia.
  - apply Z.leb_gt in He.
    assert (0 < 2 ^ (- e)) by (apply Z.pow_pos_nonneg; lia).
    assert (0 < 2 ^ (1 - e)) by (apply Z.pow_pos_nonneg; lia).
    assert (0 < 10 ^ Z.of_nat f) by (apply Z.pow_pos_nonneg; lia).
    apply Z.div_pos; nia.
Qed.

(** The code's rounding is the rounding of the rational value. *)
Lemma roundScaled_hundredths m e : roundScaled 2 m e = Spec.roundedHundredths m e.
Proof.
  unfold roundScaled, Spec.roundedHundredths, Spec.magnitude.
  change (10 ^ Z.of_nat 2) with 100.
  destruct (0 <=? e) eqn:He.
  - unfold QArith_base.inject_Z, QArith_base.Qmult, QArith_base.Qplus, Qround.Qfloor.
    cbn [QArith_base.Qnum QArith_base.Qden].
    generalize (Zpos m * 2 ^ e). intros v.
    change (Z.pos (1 * 1 * 2)) with 2. change (Z.pos (1 * 1)) with 1.
    change (Z.pos 2) with 2.
    rewrite Z.mul_1_r.
    assert (v * 100 * 2 + 1 = 1 + (v * 100) * 2) as -> by lia.
    rewrite Z.div_add by lia. reflexivity.
  - apply Z.leb_gt in He.
    assert (Hp : 0 < 2 ^ (- e)) by (apply Z.pow_pos_nonneg; lia).
    unfold QArith_base.inject_Z, QArith_base.Qmult, QArith_base.Qplus, Qround.Qfloor.
    cbn [QArith_base.Qnum QArith_base.Qden].
    replace (1 - e) with (Z.succ (- e)) by lia.
    rewrite Z.pow_succ_r by lia.
    rewrite !Pos2Z.inj_mul, Z2Pos.id by exact Hp.
    f_equal; lia.
Qed.

Lemma twoDigits_split n : 0 <= n ->
  Spec.twoDigits (n mod 100)
  = String (digitChar ((n / 10) mod 10)) (String (digitChar (n mod 10)) "").
Proof.
  intros Hn. unfold Spec.twoDigits.
  replace (n mod 100 / 10) with ((n / 10) mod 10)
    by zdiv.
  replace ((n mod 100) mod 10) with (n mod 10)
    by zdiv.
  reflexivity.
Qed.

(** [toFixed(2)] on the rounded hundredths: the digits of the integer part,
    a point, two digits. *)
Lemma fixedDigits_two n : 0 <= n ->
  fixedDigits 2 n = decimalDigits (n / 100) ++ "." ++ Spec.twoDigits (n mod 100).
Proof.
  intros Hn. rewrite twoDigits_split by exact Hn. unfold fixedDigits.
  destruct (Z_lt_le_dec n 10) as [H10 | H10].
  - rewrite (decimalDigits_small n) by zdiv.
    replace (n / 100) with 0 by zdiv. replace (n / 10) with 0 by zdiv.
    rewrite (decimalDigits_small 0) by zdiv.
    replace (n mod 10) with n by zdiv.
    change (0 mod 10) with 0. rewrite digitChar_zero.
    generalize (digitChar n). intros c. reflexivity.
  - destruct (Z_lt_le_dec n 100) as [H100 | H100].
    + rewrite (decimalDigits_step n), (decimalDigits_small (n / 10)) by zdiv.
      replace (n / 100) with 0 by zdiv.
      rewrite (decimalDigits_small 0) by zdiv.
      replace ((n / 10) mod 10) with (n / 10) by zdiv.
      rewrite digitChar_zero.
      generalize (digitChar (n / 10)) (digitChar (n mod 10)). intros c d.
      reflexivity.
    + rewrite (decimalDigits_step n), (decimalDigits_step (n / 10)) by zdiv.
      replace (n / 10 / 10) with (n / 100) by zdiv.
      generalize (digitChar ((n / 10) mod 10)) (digitChar (n mod 10)).
      intros c d.
      destruct (decimalDigits_nonempty (n / 100)) as (x & rest & E & _); [zdiv |].
      rewrite append_assoc.
      set (D := decimalDigits (n / 100)) in *.
      set (T := String c "" ++ String d "").
      assert (HT : String.length T = 2%nat) by reflexivity.
      assert (HD : (1 <= String.length D)%nat) by (rewrite E; simpl; lia).
      rewrite length_append, HT.
      destruct (Nat.leb_spec (String.length D + 2) 2); [zdiv |].
      cbv zeta. rewrite length_append, HT.
      replace (String.length D + 2 - 2)%nat with (String.length D) by zdiv.
      rewrite substring_take, substring_skip.
      reflexivity.
Qed.

Lemma toFixed_finite s m e :
  atLeast1e21 m e = false ->
  toFixed (S754_finite s m e) 2
  = (if s then "-" else "")
    ++ decimalDigits (roundScaled 2 m e / 100) ++ "."
    ++ Spec.twoDigits (roundScaled 2 m e mod 100).
Proof.
  intros H. unfold toFixed. rewrite H.
  now rewrite fixedDigits_two by apply roundScaled_nonneg.
Qed.

End FixedFacts.

Module FormatFacts.
Import JSNumber StringFacts DigitFacts FixedFacts App.

(** *** [slice] at the end of a string *)

Lemma slice_last a b k :
  (0 < k)%nat -> String.length b = k ->
  JSString.slice (a ++ b) (- Z.of_nat k) None = b.
Proof.
  intros Hk Hb. unfold JSString.slice, JSString.length, JSString.relativeIndex.
  rewrite length_append, Hb.
  destruct (Z.ltb_spec (- Z.of_nat k) 0); [| lia].
  replace (Z.max (Z.of_nat (String.length a + k) + - Z.of_nat k) 0)
    with (Z.of_nat (String.length a)) by lia.
  destruct (Z.leb_spec (Z.of_nat (String.length a + k)) (Z.of_nat (String.length a)));
    [lia |].
  rewrite Nat2Z.id.
  replace (Z.to_nat (Z.of_nat (String.length a + k) - Z.of_nat (String.length a)))
    with k by lia.
  rewrite substring_skip, <- Hb. apply substring_all.
Qed.

Lemma slice_init a b k :
  (0 < k)%nat -> String.length b = k ->
  JSString.slice (a ++ b) 0 (Some (- Z.of_nat k)) = a.
Proof.
  intros Hk Hb. unfold JSString.slice, JSString.length, JSString.relativeIndex.
  rewrite length_append, Hb.
  destruct (Z.ltb_spec (- Z.of_nat k) 0); [| lia].
  change (0 <? 0) with false. cbv iota.
  replace (Z.max (Z.of_nat (String.length a + k) + - Z.of_nat k) 0)
    with (Z.of_nat (String.length a)) by lia.
  rewrite Z.min_l by lia.
  destruct (Z.leb_spec (Z.of_nat (String.length a)) 0) as [H0 | H0].
  - destruct a; [reflexivity | simpl in H0; lia].
  - change (Z.to_nat 0) with 0%nat. rewrite Z.sub_0_r, Nat2Z.id.
    apply substring_take.
Qed.

Lemma slice_last_short s k :
  (String.length s <= k)%nat ->
  JSString.slice s (- Z.of_nat k) None = s.
Proof.
  intros Hs. unfold JSString.slice, JSString.length, JSString.relativeIndex.
  destruct (Z.ltb_spec (- Z.of_nat k) 0) as [Hk | Hk].
  - rewrite Z.max_r by lia.
    destruct (Z.leb_spec (Z.of_nat (String.length s)) 0) as [H0 | H0].
    + destruct s; [reflexivity | simpl in H0; lia].
    + change (Z.to_nat 0) with 0%nat. rewrite Z.sub_0_r, Nat2Z.id.
      apply substring_all.
  - assert (k = 0)%nat by lia. subst k.
    destruct s; [reflexivity | simpl in Hs; lia].
Qed.

Lemma slice_init_short s k :
  (String.length s <= k)%nat ->
  JSString.slice s 0 (Some (- Z.of_nat k)) = "".
Proof.
  intros Hs. unfold JSString.slice, JSString.length, JSString.relativeIndex.
  change (0 <? 0) with false. cbv iota.
  destruct (Z.ltb_spec (- Z.of_nat k) 0) as [Hk | Hk].
  - rewrite Z.max_r by lia. rewrite Z.min_l by lia. reflexivity.
  - assert (k = 0)%nat by lia. subst k.
    destruct s; [reflexivity | simpl in Hs; lia].
Qed.

(** *** Strings and their lists of characters *)

Lemma string_of_app l1 l2 :
  string_of_list_ascii (l1 ++ l2)
  = string_of_list_ascii l1 ++ string_of_list_ascii l2.
Proof. induction l1 as [|c l1 IH]; simpl; [reflexivity | now rewrite IH]. Qed.

Lemma length_string_of l :
  String.length (string_of_list_ascii l) = List.length l.
Proof. induction l as [|c l IH]; simpl; [reflexivity | now rewrite IH]. Qed.

Lemma length_list_of s :
  List.length (list_ascii_of_string s) = String.length s.
Proof. induction s as [|c s IH]; simpl; [reflexivity | now rewrite IH]. Qed.

Lemma string_of_rev_rev s :
  string_of_list_ascii (rev (rev (list_ascii_of_string s))) = s.
Proof. rewrite rev_involutive. apply string_of_list_ascii_of_string. Qed.

(** Induction on a list two elements at a time. *)
Lemma pairs_ind {A} (P : list A -> Prop) :
  P [] -> (forall a, P [a]) -> (forall a b l, P l -> P (a :: b :: l)) ->
  forall l, P l.
Proof.
  intros H0 H1 H2.
  assert (H : forall l, P l /\ forall a, P (a :: l)).
  { induction l as [|x l [IH1 IH2]]; split; auto. }
  intros l. apply H.
Qed.

(** *** The grouping loop *)

(** Once [remaining] is empty the loop has ended, whatever fuel is left. *)
Lemma groupLoop_done fuel formatted : groupLoop fuel "" formatted = formatted.
Proof. destruct fuel; reflexivity. Qed.

(** With at least [String.length remaining] rounds the loop runs to its
    end, and prepends the pairs of [remaining], each followed by a comma. *)
Lemma groupLoop_pairs fromRight : forall fuel formatted,
  (List.length fromRight <= fuel)%nat ->
  groupLoop fuel (string_of_list_ascii (rev fromRight)) formatted
  = string_of_list_ascii (rev (Spec.pairsLeftwards fromRight)) ++ formatted.
Proof.
  induction fromRight as [| a | a b rest IH] using pairs_ind;
    intros fuel formatted Hfuel.
  - apply groupLoop_done.
  - destruct fuel as [|fuel]; [simpl in Hfuel; lia |].
    cbn [rev List.app string_of_list_ascii Spec.pairsLeftwards groupLoop].
    change (0 <? JSString.length (String a "")) with true. cbv iota.
    change (-2) with (- Z.of_nat 2).
    rewrite (slice_init_short (String a "") 2), (slice_last_short (String a "") 2)
      by (simpl; lia).
    rewrite groupLoop_done. reflexivity.
  - destruct fuel as [|fuel]; [simpl in Hfuel; lia |].
    cbn [rev Spec.pairsLeftwards groupLoop].
    rewrite <- !app_assoc. cbn [List.app].
    rewrite !string_of_app.
    set (R := string_of_list_ascii (rev rest)).
    set (P := string_of_list_ascii (rev (Spec.pairsLeftwards rest))).
    cbn [string_of_list_ascii].
    assert (Hlen : (0 <? JSString.length (R ++ String b (String a ""))) = true).
    { apply Z.ltb_lt. unfold JSString.length. rewrite length_append. simpl. lia. }
    rewrite Hlen. change (-2) with (- Z.of_nat 2).
    rewrite (slice_init R (String b (String a "")) 2),
            (slice_last R (String b (String a "")) 2) by first [reflexivity | lia].
    unfold R. rewrite IH by (simpl in Hfuel; lia).
    fold P. rewrite !append_assoc. reflexivity.
Qed.

(** The loop gives the same string with any sufficient fuel. *)
Lemma groupLoop_fuel remaining formatted f1 f2 :
  (String.length remaining <= f1)%nat -> (String.length remaining <= f2)%nat ->
  groupLoop f1 remaining formatted = groupLoop f2 remaining formatted.
Proof.
  intros H1 H2.
  rewrite <- (string_of_rev_rev remaining).
  rewrite !groupLoop_pairs; [reflexivity | |];
    now rewrite length_rev, length_list_of.
Qed.

Lemma groupCode_spec digits : groupCode digits = Spec.groupDigits digits.
Proof.
  unfold groupCode, Spec.groupDigits, JSString.length.
  destruct (Nat.leb_spec (String.length digits) 3) as [H3 | H3].
  - destruct (Z.leb_spec (Z.of_nat (String.length digits)) 3); [reflexivity | lia].
  - destruct (Z.leb_spec (Z.of_nat (String.length digits)) 3); [lia |].
    assert (Hl := length_list_of digits).
    rewrite <- (string_of_rev_rev digits) at 2 3.
    rewrite <- length_rev in Hl.
    destruct (rev (list_ascii_of_string digits)) as [|a [|b [|c rest]]];
      try (simpl in Hl; lia).
    cbn [firstn skipn rev].
    rewrite <- !app_assoc. cbn [List.app].
    cbn [rev]. rewrite <- !app_assoc. cbn [List.app].
    rewrite !string_of_app.
    set (L := string_of_list_ascii [c; b; a]).
    assert (HL : String.length L = 3%nat) by reflexivity.
    change (-3) with (- Z.of_nat 3).
    rewrite (slice_init _ L 3), (slice_last _ L 3) by first [exact HL | lia].
    apply groupLoop_pairs.
    simpl in Hl. lia.
Qed.

End FormatFacts.

Module FormatNPRFacts.
Import JSNumber StringFacts DigitFacts FixedFacts FormatFacts App.

Lemma allChars_weaken (p q : ascii -> bool) s :
  (forall c, p c = true -> q c = true) ->
  JSString.allChars p s = true -> JSString.allChars q s = true.
Proof.
  intros Hpq. induction s as [|c s IH]; cbn [JSString.allChars]; [reflexivity |].
  intros H. apply andb_prop in H as [Hc Hs].
  now rewrite (Hpq c Hc), (IH Hs).
Qed.

Lemma digit_not_point c : JSParse.isDigit c = true -> JSString.notChar "." c = true.
Proof.
  unfold JSString.notChar. destruct (Ascii.eqb_spec c "."); [subst; discriminate | reflexivity].
Qed.

Lemma startsWith_minus d : JSString.startsWith (String "-" d) "-" = true.
Proof.
  unfold JSString.startsWith. cbn [String.prefix].
  destruct (ascii_dec "-" "-"); [destruct d; reflexivity | congruence].
Qed.

Lemma startsWith_digit c rest :
  JSParse.isDigit c = true -> JSString.startsWith (String c rest) "-" = false.
Proof.
  intros Hc. unfold JSString.startsWith. cbn [String.prefix].
  destruct (ascii_dec "-" c); [subst; discriminate | reflexivity].
Qed.

Lemma twoDigits_allDigits n : 0 <= n < 100 ->
  JSString.allChars JSParse.isDigit (Spec.twoDigits n) = true.
Proof.
  intros Hn. unfold Spec.twoDigits. cbn [JSString.allChars].
  rewrite !isDigit_digitChar; [reflexivity | |];
    Z.to_euclidean_division_equations; lia.
Qed.

Lemma strictEq_finite_zero s m e : strictEq (S754_finite s m e) posZero = false.
Proof. destruct s; reflexivity. Qed.

Lemma substring_after_minus d : JSString.substring (String "-" d) 1 = d.
Proof.
  unfold JSString.substring, JSString.length. cbn [String.length].
  rewrite Z.max_l, Z.min_l by lia.
  change (Z.to_nat 1) with 1%nat.
  replace (Z.to_nat (Z.of_nat (S (String.length d)) - 1)) with (String.length d) by lia.
  cbn [String.substring]. apply substring_all.
Qed.

(** [formatNPR] on a finite amount below 10^21 in absolute value: sign,
    prefix, space, grouped integer digits, point, two digits. *)
Lemma formatNPR_finite s m e :
  atLeast1e21 m e = false ->
  formatNPR (S754_finite s m e)
  = (if s then "-" else "") ++ "रू "
    ++ Spec.groupDigits (decimalDigits (roundScaled 2 m e / 100)) ++ "."
    ++ Spec.twoDigits (roundScaled 2 m e mod 100).
Proof.
  intros Hsmall. unfold formatNPR.
  rewrite strictEq_finite_zero, (toFixed_finite s m e Hsmall).
  assert (Hh := roundScaled_nonneg 2 m e).
  set (h := roundScaled 2 m e) in *.
  assert (Hq : 0 <= h / 100) by (apply Z.div_pos; lia).
  assert (Hr : 0 <= h mod 100 < 100) by (apply Z.mod_pos_bound; lia).
  assert (HD := decimalDigits_allDigits _ Hq).
  assert (HF := twoDigits_allDigits _ Hr).
  destruct (decimalDigits_nonempty _ Hq) as (c & rest & ED & Hc).
  set (D := decimalDigits (h / 100)) in *.
  set (F := Spec.twoDigits (h mod 100)) in *.
  assert (HsD : JSString.allChars (JSString.notChar ".")
                  ((if s then "-" else "") ++ D) = true).
  { rewrite allChars_append, (allChars_weaken _ _ D digit_not_point HD).
    destruct s; reflexivity. }
  assert (HsF : JSString.split "." F = [F]).
  { apply split_without, (allChars_weaken _ _ F digit_not_point HF). }
  replace ((if s then "-" else "") ++ D ++ "." ++ F)
    with (((if s then "-" else "") ++ D) ++ String "." F)
    by (now rewrite append_assoc).
  rewrite (split_at_sep _ _ _ HsD), HsF.
  cbn [nth nth_error JSString.toStringOpt]. cbv zeta.
  rewrite <- groupCode_spec.
  destruct s.
  - cbn [append]. rewrite startsWith_minus, substring_after_minus. reflexivity.
  - assert (Hst : JSString.startsWith D "-" = false)
      by (rewrite ED; apply startsWith_digit; exact Hc).
    cbn [append]. rewrite Hst. reflexivity.
Qed.

End FormatNPRFacts.

Module FormatterClaims.
Import JSNumber App.

(** C1 (the code departs from the claim).  At the finite amount 10^21
    [toFixed] answers in exponential notation, ["1e+21"]: [formatNPR] groups
    that text and appends the missing fraction as ["undefined"], where the
    algorithm of the specification yields the grouped digits of 10^21 and two
    decimals. *)
Theorem formatNPR_breaks_at_1e21 :
  formatNPR (ofZ (10 ^ 21)) = "रू 1e,+21.undefined"
  /\ Spec.format (ofZ (10 ^ 21))
     = Some "रू 1,00,00,00,00,00,00,00,00,00,000.00".
Proof. split; vm_compute; reflexivity. Qed.

(** C7.  [formatNPR] of zero is the prefix followed by [" 0.00"], for the
    positive and for the negative zero alike: no sign, no grouping. *)
Theorem formatNPR_zero (s : bool) :
  formatNPR (S754_zero s) = Spec.currencyPrefix ++ " 0.00".
Proof. destruct s; reflexivity. Qed.

(** C8 (the code departs from the claim).  For the negative finite amount
    -10^21 the sign, the prefix and the space come in the claimed order, but
    what follows is the regrouped exponential text and ["undefined"], not
    the grouped integer digits, a point and two fractional digits. *)
Theorem formatNPR_negative_breaks_at_1e21 :
  formatNPR (SFopp (ofZ (10 ^ 21))) = "-रू 1e,+21.undefined"
  /\ Spec.format (SFopp (ofZ (10 ^ 21)))
     = Some "-रू 1,00,00,00,00,00,00,00,00,00,000.00".
Proof. split; vm_compute; reflexivity. Qed.

End FormatterClaims.

Module ConvertFacts.
Import JSNumber JSParse App.

Lemma getProperty_own {A} (own : list (string * A)) key v :
  assoc key own = Some v -> getProperty own key = POwn v.
Proof. unfold getProperty. now intros ->. Qed.

(** [animate] touches neither the result area nor the rate line. *)
Lemma resultText_animate w : resultText (animate w) = resultText w.
Proof. unfold animate, resultText. destruct (resultBox (elements w)); reflexivity. Qed.

Lemma resultColor_animate w : resultColor (animate w) = resultColor w.
Proof. unfold animate, resultColor. destruct (resultBox (elements w)); reflexivity. Qed.

Lemma rateText_animate w : rateText (animate w) = rateText w.
Proof. unfold animate, rateText. destruct (resultBox (elements w)); reflexivity. Qed.

Lemma resultText_writeRate t w : resultText (writeRate t w) = resultText w.
Proof. unfold writeRate, resultText. destruct (resultRate (elements w)); reflexivity. Qed.

Lemma resultColor_writeRate t w : resultColor (writeRate t w) = resultColor w.
Proof. unfold writeRate, resultColor. destruct (resultRate (elements w)); reflexivity. Qed.

Lemma resultText_writeResult t w :
  resultText (writeResult t w) = option_map (fun _ => t) (resultAmount (elements w)).
Proof.
  unfold writeResult, resultText.
  destruct (resultAmount (elements w)) eqn:E; [reflexivity | now rewrite E].
Qed.

Lemma resultColor_writeResult t w : resultColor (writeResult t w) = resultColor w.
Proof.
  unfold writeResult, resultColor.
  destruct (resultAmount (elements w)) eqn:E; [reflexivity | now rewrite E].
Qed.

Lemma rateText_writeRate t w :
  rateText (writeRate t w) = option_map (fun _ => t) (resultRate (elements w)).
Proof.
  unfold writeRate, rateText.
  destruct (resultRate (elements w)) eqn:E; [reflexivity | now rewrite E].
Qed.

Lemma resultRate_writeResult t w :
  resultRate (elements (writeResult t w)) = resultRate (elements w).
Proof. unfold writeResult. destruct (resultAmount (elements w)); reflexivity. Qed.

(** The successful branch of [convertCurrency], in one equation. *)
Lemma convertCurrency_known w data code raw r :
  ratesData w = Some data ->
  currency (elements w) = Some code ->
  amount (elements w) = Some raw ->
  assoc code (rates data) = Some r ->
  convertCurrency w
  = (animate
       (writeRate ("1 " ++ code ++ " = NPR " ++ toFixed (sell r) 2)
          (writeResult (formatNPR (mul (amountOf raw) (sell r))) w)),
     Normal).
Proof.
  intros Hd Hc Ha Hr. unfold convertCurrency.
  rewrite Hd, Hc, Ha, (getProperty_own _ _ _ Hr). reflexivity.
Qed.

Lemma amountOf_unparseable raw :
  scanLiteral (trimStart raw) = None -> amountOf raw = posZero.
Proof. intros H. unfold amountOf, parseFloat. now rewrite H. Qed.

Lemma formatNPR_zero_times x :
  isFinite x = true -> formatNPR (mul posZero x) = "रू 0.00".
Proof. destruct x as [s | s | | s m e]; try discriminate; destruct s; reflexivity. Qed.

End ConvertFacts.

Module ConvertClaims.
Import JSNumber JSParse App ConvertFacts.

(** C2 (the code departs from the claim).  With the snapshot
    [{"XXX": {buy: 1, sell: 1e21}}], the code ["XXX"] and the amount ["2"]
    the conversion completes and multiplies by the sell rate, but the rate
    line reads ["1 XXX = NPR 1e+21"]: the sell rate is printed in
    exponential notation, not to two decimals, and the amount shown is the
    regrouped exponential text followed by ["undefined"]. *)
Theorem convert_rate_line_lacks_decimals :
  assoc "XXX" (rates Examples.snapshotLarge) = Some Examples.rateLarge
  /\ snd (convertCurrency (Examples.largeRateWorld "XXX" "2")) = Normal
  /\ rateText (fst (convertCurrency (Examples.largeRateWorld "XXX" "2")))
     = Some "1 XXX = NPR 1e+21"
  /\ Spec.hasTwoDecimals "1 XXX = NPR 1e+21" = false
  /\ resultText (fst (convertCurrency (Examples.largeRateWorld "XXX" "2")))
     = Some "रू 2e,+21.undefined".
Proof. repeat split; vm_compute; reflexivity. Qed.

(** C3.  When no prefix of the trimmed amount text is a decimal literal
    (the empty text, ["abc"]), the amount is the number zero and the
    conversion goes through: it completes normally, shows the formatted
    product of zero and the sell rate (that is ["0.00"] after the prefix for
    every finite rate) and leaves the colour of the result area alone. *)
Theorem convert_unparseable_amount_is_zero w data code raw r :
  ratesData w = Some data ->
  currency (elements w) = Some code ->
  amount (elements w) = Some raw ->
  assoc code (rates data) = Some r ->
  scanLiteral (trimStart raw) = None ->
  amountOf raw = posZero
  /\ snd (convertCurrency w) = Normal
  /\ resultText (fst (convertCurrency w))
     = option_map (fun _ => formatNPR (mul posZero (sell r)))
         (resultAmount (elements w))
  /\ resultColor (fst (convertCurrency w)) = resultColor w
  /\ (isFinite (sell r) = true ->
      formatNPR (mul posZero (sell r)) = Spec.currencyPrefix ++ " 0.00").
Proof.
  intros Hd Hc Ha Hr Hraw.
  assert (Hz := amountOf_unparseable raw Hraw).
  rewrite (convertCurrency_known w data code raw r Hd Hc Ha Hr), Hz.
  cbn [fst snd]. repeat split.
  - now rewrite resultText_animate, resultText_writeRate, resultText_writeResult.
  - now rewrite resultColor_animate, resultColor_writeRate, resultColor_writeResult.
  - apply formatNPR_zero_times.
Qed.

Lemma convert_unparseable_amount_is_zero_witness :
  (amountOf "" = posZero
   /\ resultText (fst (convertCurrency (Examples.readyWorld "XXX" "")))
      = Some "रू 0.00")
  /\ (amountOf "abc" = posZero
      /\ resultText (fst (convertCurrency (Examples.readyWorld "XXX" "abc")))
         = Some "रू 0.00").
Proof.
  split.
  - destruct (convert_unparseable_amount_is_zero (Examples.readyWorld "XXX" "")
                Examples.snapshotXXX "XXX" "" Examples.rateXXX
                eq_refl eq_refl eq_refl eq_refl eq_refl) as (Hz & _ & Ht & _ & Hf).
    split; [exact Hz |]. rewrite Ht. cbn [option_map Examples.readyWorld
      Examples.page elements resultAmount]. now rewrite (Hf eq_refl).
  - destruct (convert_unparseable_amount_is_zero (Examples.readyWorld "XXX" "abc")
                Examples.snapshotXXX "XXX" "abc" Examples.rateXXX
                eq_refl eq_refl eq_refl eq_refl eq_refl) as (Hz & _ & Ht & _ & Hf).
    split; [exact Hz |]. rewrite Ht. cbn [option_map Examples.readyWorld
      Examples.page elements resultAmount]. now rewrite (Hf eq_refl).
Defined.

(** C4, the claim as stated fails: before any load has completed,
    [convertCurrency] does not show the unavailable indicator. *)
Lemma convert_not_ready_shows_no_indicator :
  ~ (forall w, loadStatus w <> Ready ->
               showsUnavailable (fst (convertCurrency w))).
Proof.
  intros H.
  specialize (H (initialWorld (Examples.page "USD" "5"))).
  assert (Hs : loadStatus (initialWorld (Examples.page "USD" "5")) <> Ready)
    by discriminate.
  specialize (H Hs). discriminate H.
Qed.

(** C4, amended.  While no snapshot is held (status Loading or Failed),
    [convertCurrency] returns at once: it completes normally and leaves the
    whole state, every display included, as it was.  The unavailable
    indicator is written by the failure path of [loadRates], which also
    ends in status Failed; the message for an unknown currency is written
    only with a snapshot loaded. *)
Theorem convert_not_ready_is_silent w :
  loadStatus w <> Ready ->
  convertCurrency w = (w, Normal)
  /\ loadStatus (loadRates FetchFailed w) = Failed
  /\ (resultAmount (elements w) <> None ->
      showsUnavailable (loadRates FetchFailed w)).
Proof.
  intros Hs. unfold loadStatus in Hs.
  destruct (ratesData w) as [d|] eqn:Hd; [congruence |].
  repeat split.
  - unfold convertCurrency. now rewrite Hd.
  - unfold loadRates, loadStatus, showError, setLoaded. rewrite Hd.
    cbn [elements].
    destruct (lastUpdated (elements w)); cbn [withElements elements ratesBody setLastUpdated];
      destruct (ratesBody (elements w)); cbn [withElements elements resultAmount setRatesBody setLastUpdated];
      destruct (resultAmount (elements w)); reflexivity.
  - intros Hra. unfold showsUnavailable, resultText, loadRates, showError, setLoaded.
    cbn [elements].
    destruct (lastUpdated (elements w)); cbn [withElements elements ratesBody setLastUpdated];
      destruct (ratesBody (elements w)); cbn [withElements elements resultAmount setRatesBody setLastUpdated];
      destruct (resultAmount (elements w)); try congruence; reflexivity.
Qed.

Lemma convert_not_ready_is_silent_witness :
  convertCurrency (initialWorld (Examples.page "USD" "5"))
  = (initialWorld (Examples.page "USD" "5"), Normal).
Proof.
  apply (convert_not_ready_is_silent (initialWorld (Examples.page "USD" "5"))).
  discriminate.
Defined.

(** C5 (the code departs from the claim).  ["constructor"] is no key of the
    snapshot's rates, yet the lookup finds the built-in inherited from
    [Object.prototype]: the unknown-currency check passes, [rate] is
    [undefined] and [rate.toFixed] throws.  No failure message is written;
    the state is left as it was. *)
Theorem convert_inherited_key_throws :
  assoc "constructor" (rates Examples.snapshotXXX) = None
  /\ convertCurrency (Examples.readyWorld "constructor" "2")
     = (Examples.readyWorld "constructor" "2", ThrowTypeError).
Proof. split; reflexivity. Qed.

(** C9 (the code departs from the claim).  The amount text ["1e21"] with
    the sell rate 100 is shown as the regrouped exponential text followed by
    ["undefined"], which does not end in two decimal digits. *)
Theorem convert_large_amount_lacks_decimals :
  resultText (fst (convertCurrency (Examples.readyWorld "XXX" "1e21")))
  = Some "रू 1e,+23.undefined"
  /\ Spec.hasTwoDecimals "रू 1e,+23.undefined" = false.
Proof. split; vm_compute; reflexivity. Qed.

End ConvertClaims.

Module ParseFacts.
Import JSNumber JSParse StringFacts.

Lemma takeDigits_nil_nondigit t :
  startsWithDigit t = false -> takeDigits t = ("", t).
Proof.
  destruct t as [|c t]; [reflexivity |]. cbn [startsWithDigit takeDigits].
  now intros ->.
Qed.

Lemma takeDigits_split p : forall d r,
  takeDigits p = (d, r) -> p = d ++ r.
Proof.
  induction p as [|c p IH]; intros d r H.
  - cbn in H. now injection H as <- <-.
  - cbn [takeDigits] in H. destruct (isDigit c).
    + destruct (takeDigits p) as [d' r'] eqn:E. injection H as <- <-.
      cbn [append]. now rewrite (IH d' r' eq_refl).
    + now injection H as <- <-.
Qed.

Lemma takeDigits_head p d r c d' :
  takeDigits p = (d, r) -> d = String c d' -> exists p', p = String c p' /\ isDigit c = true.
Proof.
  intros H ->. destruct p as [|x p]; [discriminate |].
  cbn [takeDigits] in H. destruct (isDigit x) eqn:Hx; [| discriminate].
  destruct (takeDigits p). injection H as -> _ _. eauto.
Qed.

Lemma prefix_Infinity_split p :
  String.prefix "Infinity" p = true ->
  p = "Infinity" ++ dropPrefix "Infinity" p.
Proof.
  intros H. apply String.prefix_correct in H.
  unfold dropPrefix. cbn [String.length] in *.
  do 8 (destruct p as [|? p]; [discriminate |]).
  cbn [String.substring] in H.
  injection H as -> -> -> -> -> -> -> -> _.
  cbn [String.length Nat.sub String.substring append].
  now rewrite Nat.sub_0_r, substring_all.
Qed.

Lemma prefix_Infinity_app r t :
  String.prefix "Infinity" (("Infinity" ++ r) ++ t) = true
  /\ dropPrefix "Infinity" (("Infinity" ++ r) ++ t) = r ++ t.
Proof.
  split.
  - cbn [append String.prefix].
    repeat match goal with
           | |- context [ascii_dec ?a ?a] =>
               destruct (ascii_dec a a); [| congruence]
           end.
    destruct (r ++ t); reflexivity.
  - unfold dropPrefix. cbn [append String.length Nat.sub String.substring].
    rewrite ?Nat.sub_0_r. apply substring_all.
Qed.

Lemma prefix_Infinity_digit c p :
  isDigit c = true -> String.prefix "Infinity" (String c p) = false.
Proof.
  intros Hc. cbn [String.prefix].
  destruct (ascii_dec "I" c); [subst; discriminate | reflexivity].
Qed.

(** What [scanUnsigned] looks at first when the text is no [Infinity]: the
    text starts with a digit or with a point. *)
Lemma scanUnsigned_decimal_head p u r :
  String.prefix "Infinity" p = false ->
  scanUnsigned p = Some (u, r) ->
  exists c p', p = String c p' /\ (isDigit c = true \/ c = "."%char).
Proof.
  intros Hinf H. unfold scanUnsigned in H. rewrite Hinf in H.
  destruct (takeDigits p) as [i s1] eqn:E.
  destruct i as [|c i].
  - assert (Hp := takeDigits_split p _ _ E). cbn [append] in Hp. subst s1.
    destruct p as [|x p]; [discriminate |].
    destruct (Ascii.eqb_spec x ".") as [-> | Hx]; [eauto | discriminate].
  - destruct (takeDigits_head p _ _ c i E eq_refl) as (p' & -> & Hc). eauto.
Qed.

Lemma takeDigits_allDigits p : forall d r,
  takeDigits p = (d, r) -> JSString.allChars isDigit d = true.
Proof.
  induction p as [|c p IH]; intros d r H.
  - cbn in H. now injection H as <- <-.
  - cbn [takeDigits] in H. destruct (isDigit c) eqn:Hc.
    + destruct (takeDigits p) as [d' r'] eqn:E. injection H as <- <-.
      cbn [JSString.allChars]. now rewrite Hc, (IH d' r' eq_refl).
    + now injection H as <- <-.
Qed.

Lemma takeDigits_all s :
  JSString.allChars isDigit s = true -> takeDigits s = (s, "").
Proof.
  induction s as [|c s IH]; [reflexivity |]. cbn [JSString.allChars takeDigits].
  intros H. apply andb_prop in H as [Hc Hs]. now rewrite Hc, (IH Hs).
Qed.

Lemma digit_not_sign c :
  isDigit c = true -> Ascii.eqb c "+" = false /\ Ascii.eqb c "-" = false.
Proof.
  intros H. split.
  - destruct (Ascii.eqb_spec c "+"); [subst; discriminate | reflexivity].
  - destruct (Ascii.eqb_spec c "-"); [subst; discriminate | reflexivity].
Qed.

Lemma digit_is_no_point c : isDigit c = true -> Ascii.eqb c "." = false.
Proof.
  intros H. destruct (Ascii.eqb_spec c "."); [subst; discriminate | reflexivity].
Qed.

Lemma indicator_not_digit c : isExponentIndicator c = true -> isDigit c = false.
Proof.
  unfold isExponentIndicator. intros H. apply orb_prop in H as [H | H];
    apply Ascii.eqb_eq in H; subst; reflexivity.
Qed.

Lemma indicator_not_point c :
  isExponentIndicator c = true -> Ascii.eqb c "." = false.
Proof.
  unfold isExponentIndicator. intros H. apply orb_prop in H as [H | H];
    apply Ascii.eqb_eq in H; subst; reflexivity.
Qed.

(** A run of digits followed by text that starts with no digit is scanned
    as that run. *)
Lemma takeDigits_run i : forall r,
  JSString.allChars isDigit i = true -> startsWithDigit r = false ->
  takeDigits (i ++ r) = (i, r).
Proof.
  induction i as [|c i IH]; intros r Hi Hr; cbn [append].
  - now apply takeDigits_nil_nondigit.
  - cbn [JSString.allChars] in Hi. apply andb_prop in Hi as [Hc Hi].
    cbn [takeDigits]. now rewrite Hc, (IH r Hi Hr).
Qed.

(** A run of digits at the front is always part of the digits scanned. *)
Lemma takeDigits_run_more i : forall r,
  JSString.allChars isDigit i = true ->
  exists d r', takeDigits (i ++ r) = (i ++ d, r').
Proof.
  induction i as [|c i IH]; intros r Hi; cbn [append].
  - destruct (takeDigits r) as [d r']. now exists d, r'.
  - cbn [JSString.allChars] in Hi. apply andb_prop in Hi as [Hc Hi].
    destruct (IH r Hi) as (d & r' & E).
    exists d, r'. cbn [takeDigits]. now rewrite Hc, E.
Qed.

Lemma decimalDigits_parts ds :
  isDecimalDigits ds = true ->
  JSString.allChars isDigit ds = true
  /\ exists c ds', ds = String c ds' /\ isDigit c = true.
Proof.
  unfold isDecimalDigits. intros H. apply andb_prop in H as [Hne Hall].
  split; [exact Hall |]. destruct ds as [|c ds']; [discriminate |].
  exists c, ds'. split; [reflexivity |].
  cbn [JSString.allChars] in Hall. now apply andb_prop in Hall as [Hc _].
Qed.

End ParseFacts.

(** ** The scanner and the grammar *)

Module GrammarFacts.
Import JSNumber JSParse StringFacts FormatNPRFacts ParseFacts.

Lemma exponentDigits_run neg ds whole t :
  isDecimalDigits ds = true -> startsWithDigit t = false ->
  exponentDigits neg (ds ++ t) whole
  = ((if neg then - digitsValue 0 ds else digitsValue 0 ds), t).
Proof.
  intros Hds Ht. destruct (decimalDigits_parts ds Hds) as (Hall & c & ds' & E & _).
  unfold exponentDigits. rewrite (takeDigits_run ds t Hall Ht).
  rewrite E. reflexivity.
Qed.

Lemma exponentDigits_none neg digits whole :
  startsWithDigit digits = false -> exponentDigits neg digits whole = (0, whole).
Proof.
  intros H. unfold exponentDigits. now rewrite (takeDigits_nil_nondigit _ H).
Qed.

(** Where no ExponentPart starts, none is scanned. *)
Lemma scanExponent_absent t :
  startsWithExponent t = false -> scanExponent t = (0, t).
Proof.
  destruct t as [|c t]; [reflexivity |]. cbn [scanExponent].
  destruct (isExponentIndicator c) eqn:Hc; [| reflexivity].
  destruct t as [|d r].
  - intros _. reflexivity.
  - cbn [startsWithExponent]. rewrite Hc. cbn [andb]. intros H.
    apply orb_false_iff in H as [Hd Hs].
    destruct (Ascii.eqb d "+") eqn:Hplus.
    + cbn [orb andb] in Hs. now apply exponentDigits_none.
    + destruct (Ascii.eqb d "-") eqn:Hminus.
      * cbn [orb andb] in Hs. now apply exponentDigits_none.
      * apply exponentDigits_none. exact Hd.
Qed.

(** An ExponentPart of the grammar is scanned whole, with its value, when
    what follows starts with no digit and no further ExponentPart. *)
Lemma scanExponent_part ex e t :
  ExponentPart ex e -> startsWithDigit t = false ->
  startsWithExponent t = false ->
  scanExponent (ex ++ t) = (e, t).
Proof.
  intros Hex Hd He. destruct Hex as [| c ds Hc Hds | c ds Hc Hds | c ds Hc Hds].
  - cbn [append]. now apply scanExponent_absent.
  - destruct (decimalDigits_parts ds Hds) as (_ & d & ds' & E & Hdg).
    subst ds. cbn [append scanExponent]. rewrite Hc.
    destruct (digit_not_sign d Hdg) as [-> ->].
    change (String d (ds' ++ t)) with (String d ds' ++ t).
    exact (exponentDigits_run false (String d ds') _ t Hds Hd).
  - cbn [append scanExponent]. rewrite Hc.
    change (Ascii.eqb "+" "+") with true. cbv iota.
    exact (exponentDigits_run false ds _ t Hds Hd).
  - cbn [append scanExponent]. rewrite Hc.
    change (Ascii.eqb "-" "+") with false. change (Ascii.eqb "-" "-") with true.
    cbv iota.
    exact (exponentDigits_run true ds _ t Hds Hd).
Qed.

Lemma exponentPart_then_no_digit ex e t :
  ExponentPart ex e -> startsWithDigit t = false ->
  startsWithDigit (ex ++ t) = false.
Proof.
  intros Hex Hd. destruct Hex; cbn [append startsWithDigit];
    [exact Hd | | |]; now apply indicator_not_digit.
Qed.

Lemma digits_no_point_or_exponent i :
  JSString.allChars isDigit i = true -> hasPointOrExponent i = false.
Proof.
  intros H. unfold hasPointOrExponent. apply negb_false_iff.
  apply (allChars_weaken isDigit); [| exact H].
  intros c Hc. rewrite (digit_is_no_point c Hc). cbn [orb].
  destruct (isExponentIndicator c) eqn:He; [| reflexivity].
  now rewrite (indicator_not_digit c He) in Hc.
Qed.

(** The first character of what follows a literal without point and
    exponent is no point. *)
Lemma cannotExtend_no_point i c :
  JSString.allChars isDigit i = true ->
  negb (Ascii.eqb c ".") || hasPointOrExponent i = true ->
  Ascii.eqb c "." = false.
Proof.
  intros Hi H. rewrite (digits_no_point_or_exponent i Hi), orb_false_r in H.
  now apply negb_true_iff in H.
Qed.

Lemma scanFraction_some i s2 :
  isEmpty i = false -> exists r, scanFraction i s2 = Some r.
Proof.
  intros Hi. unfold scanFraction. destruct (takeDigits s2) as [f s3].
  destruct i as [|c i]; [discriminate |].
  destruct (scanExponent s3) as [e s4]. destruct f; eauto.
Qed.

Lemma scanNoFraction_some i s1 :
  isEmpty i = false -> exists r, scanNoFraction i s1 = Some r.
Proof.
  intros Hi. unfold scanNoFraction. destruct i as [|c i]; [discriminate |].
  destruct (scanExponent s1) as [e s4]. eauto.
Qed.

(** The body of a literal starts with a digit, a point or the [I] of
    [Infinity], never with a sign. *)
Lemma unsigned_head b u :
  StrUnsignedDecimalLiteral b u ->
  exists c b', b = String c b'
    /\ Ascii.eqb c "+" = false /\ Ascii.eqb c "-" = false.
Proof.
  intros [| i f ex e Hi Hf Hne Hex | i ex e Hi Hex].
  - exists "I"%char, "nfinity". repeat split.
  - destruct i as [|c i].
    + exists "."%char, (f ++ ex). repeat split.
    + cbn [JSString.allChars] in Hi. apply andb_prop in Hi as [Hc _].
      exists c, (i ++ "." ++ f ++ ex). split; [reflexivity |].
      now apply digit_not_sign.
  - destruct (decimalDigits_parts i Hi) as (_ & c & i' & -> & Hc).
    exists c, (i' ++ ex). split; [reflexivity |]. now apply digit_not_sign.
Qed.

(** Completeness of the scanner, with the rest: a body of the grammar
    followed by text that cannot extend it is scanned as that body. *)
Lemma scanUnsigned_complete b u t :
  StrUnsignedDecimalLiteral b u ->
  cannotExtend b t = true ->
  scanUnsigned (b ++ t) = Some (u, t).
Proof.
  intros Hb Ht.
  assert (Hd : startsWithDigit t = false).
  { destruct t as [|c t]; [reflexivity |]. cbn [cannotExtend] in Ht.
    apply andb_prop in Ht as [Ht _]. apply andb_prop in Ht as [Ht _].
    now apply negb_true_iff in Ht. }
  assert (He : startsWithExponent t = false).
  { destruct t as [|c t]; [reflexivity |]. cbn [cannotExtend] in Ht.
    apply andb_prop in Ht as [Ht _]. apply andb_prop in Ht as [_ Ht].
    now apply negb_true_iff in Ht. }
  destruct Hb as [| i f ex e Hi Hf Hne Hex | i ex e Hi Hex].
  - unfold scanUnsigned.
    destruct (prefix_Infinity_app "" t) as [E1 E2]. cbn [append] in E1, E2.
    cbn [append]. now rewrite E1, E2.
  - assert (Hinf : String.prefix "Infinity" ((i ++ "." ++ f ++ ex) ++ t) = false).
    { destruct i as [|c i]; [reflexivity |].
      cbn [JSString.allChars] in Hi. apply andb_prop in Hi as [Hc _].
      cbn [append]. now apply prefix_Infinity_digit. }
    unfold scanUnsigned. rewrite Hinf.
    replace ((i ++ "." ++ f ++ ex) ++ t) with (i ++ String "." (f ++ ex ++ t))
      by (now rewrite !append_assoc).
    rewrite (takeDigits_run i (String "." (f ++ ex ++ t)) Hi eq_refl).
    change (Ascii.eqb "." ".") with true. cbv iota.
    unfold scanFraction.
    rewrite (takeDigits_run f _ Hf (exponentPart_then_no_digit ex e t Hex Hd)).
    rewrite (scanExponent_part ex e t Hex Hd He).
    destruct i, f; [discriminate | reflexivity ..].
  - destruct (decimalDigits_parts i Hi) as (Hall & c & i' & E & Hc).
    assert (Hinf : String.prefix "Infinity" ((i ++ ex) ++ t) = false).
    { rewrite E. cbn [append]. now apply prefix_Infinity_digit. }
    unfold scanUnsigned. rewrite Hinf.
    replace ((i ++ ex) ++ t) with (i ++ ex ++ t) by (now rewrite append_assoc).
    rewrite (takeDigits_run i _ Hall (exponentPart_then_no_digit ex e t Hex Hd)).
    assert (Hno : scanNoFraction i (ex ++ t) = Some (LitDecimal i "" e, t)).
    { unfold scanNoFraction. rewrite (scanExponent_part ex e t Hex Hd He).
      rewrite E. reflexivity. }
    destruct (ex ++ t) as [|x s2] eqn:Es; [exact Hno |].
    replace (Ascii.eqb x ".") with false; [exact Hno |]. symmetry.
    destruct Hex as [| y ds Hy _ | y ds Hy _ | y ds Hy _];
      cbn [append] in Es.
    + subst t. cbn [cannotExtend] in Ht. apply andb_prop in Ht as [_ Ht].
      rewrite append_nil_r in Ht.
      exact (cannotExtend_no_point i x Hall Ht).
    + injection Es as <- _. now apply indicator_not_point.
    + injection Es as <- _. now apply indicator_not_point.
    + injection Es as <- _. now apply indicator_not_point.
Qed.

Lemma hasPointOrExponent_sign c b :
  Ascii.eqb c "+" || Ascii.eqb c "-" = true ->
  hasPointOrExponent (String c b) = hasPointOrExponent b.
Proof.
  intros H. apply orb_prop in H as [H | H]; apply Ascii.eqb_eq in H; subst;
    reflexivity.
Qed.

Lemma cannotExtend_sign c b t :
  Ascii.eqb c "+" || Ascii.eqb c "-" = true ->
  cannotExtend (String c b) t = cannotExtend b t.
Proof.
  intros H. destruct t as [|x t]; [reflexivity |].
  cbn [cannotExtend]. now rewrite (hasPointOrExponent_sign c b H).
Qed.

(** Completeness of the scanner: a literal of the grammar followed by text
    that cannot extend it is what [scanLiteral] finds, with the same sign
    and parts, and that text is the rest. *)
Lemma scanLiteral_complete p neg u t :
  StrDecimalLiteral p neg u ->
  cannotExtend p t = true ->
  scanLiteral (p ++ t) = Some (neg, u, t).
Proof.
  intros [b u' Hb | b u' Hb | b u' Hb] Ht.
  - destruct (unsigned_head b u' Hb) as (c & b' & -> & Hp & Hm).
    unfold scanLiteral. cbn [append]. rewrite Hp, Hm.
    change (String c (b' ++ t)) with (String c b' ++ t).
    unfold scanSigned. now rewrite (scanUnsigned_complete _ _ _ Hb Ht).
  - rewrite cannotExtend_sign in Ht by reflexivity.
    unfold scanLiteral. cbn [append].
    change (Ascii.eqb "+" "+") with true. cbv iota.
    unfold scanSigned. now rewrite (scanUnsigned_complete _ _ _ Hb Ht).
  - rewrite cannotExtend_sign in Ht by reflexivity.
    unfold scanLiteral. cbn [append].
    change (Ascii.eqb "-" "+") with false. change (Ascii.eqb "-" "-") with true.
    cbv iota.
    unfold scanSigned. now rewrite (scanUnsigned_complete _ _ _ Hb Ht).
Qed.

(** Whatever follows a body of the grammar, the scanner finds a literal
    (that body, or a longer one). *)
Lemma scanUnsigned_finds b u r :
  StrUnsignedDecimalLiteral b u -> exists res, scanUnsigned (b ++ r) = Some res.
Proof.
  intros [| i f ex e Hi Hf Hne Hex | i ex e Hi Hex]; unfold scanUnsigned.
  - destruct (String.prefix "Infinity" ("Infinity" ++ r)) eqn:E; [eauto |].
    destruct (prefix_Infinity_app "" r) as [E' _]. cbn [append] in E', E.
    congruence.
  - replace ((i ++ "." ++ f ++ ex) ++ r) with (i ++ String "." (f ++ ex ++ r))
      by (now rewrite !append_assoc).
    assert (Hinf : String.prefix "Infinity" (i ++ String "." (f ++ ex ++ r)) = false).
    { destruct i as [|c i]; [reflexivity |].
      cbn [JSString.allChars] in Hi. apply andb_prop in Hi as [Hc _].
      cbn [append]. now apply prefix_Infinity_digit. }
    rewrite Hinf, (takeDigits_run i (String "." (f ++ ex ++ r)) Hi eq_refl).
    change (Ascii.eqb "." ".") with true. cbv iota.
    unfold scanFraction.
    destruct (takeDigits_run_more f (ex ++ r) Hf) as (d & r' & ->).
    destruct (scanExponent r') as [e' s4].
    destruct i as [|ci i]; [| eauto].
    destruct f as [|cf f]; [discriminate |]. cbn [append]. eauto.
  - destruct (decimalDigits_parts i Hi) as (Hall & c & i' & E & Hc).
    replace ((i ++ ex) ++ r) with (i ++ ex ++ r) by (now rewrite append_assoc).
    assert (Hinf : String.prefix "Infinity" (i ++ ex ++ r) = false).
    { rewrite E. cbn [append]. now apply prefix_Infinity_digit. }
    rewrite Hinf.
    destruct (takeDigits_run_more i (ex ++ r) Hall) as (d & r' & ->).
    assert (Hne : isEmpty (i ++ d) = false) by (rewrite E; reflexivity).
    destruct r' as [|x s2]; [now apply scanNoFraction_some |].
    destruct (Ascii.eqb x ".");
      [now apply scanFraction_some | now apply scanNoFraction_some].
Qed.

Lemma scanLiteral_finds p neg u r :
  StrDecimalLiteral p neg u -> scanLiteral (p ++ r) <> None.
Proof.
  intros [b u' Hb | b u' Hb | b u' Hb];
    destruct (scanUnsigned_finds b u' r Hb) as ([u0 rest] & E).
  - destruct (unsigned_head b u' Hb) as (c & b' & -> & Hp & Hm).
    unfold scanLiteral. cbn [append]. rewrite Hp, Hm.
    change (String c (b' ++ r)) with (String c b' ++ r).
    unfold scanSigned. now rewrite E.
  - unfold scanLiteral. cbn [append].
    change (Ascii.eqb "+" "+") with true. cbv iota.
    unfold scanSigned. now rewrite E.
  - unfold scanLiteral. cbn [append].
    change (Ascii.eqb "-" "+") with false. change (Ascii.eqb "-" "-") with true.
    cbv iota. unfold scanSigned. now rewrite E.
Qed.

(** *** Soundness: what the scanner finds is a literal of the grammar *)

Lemma takeDigits_decimalDigits s c d r :
  takeDigits s = (String c d, r) -> isDecimalDigits (String c d) = true.
Proof.
  intros H. unfold isDecimalDigits. cbn [isEmpty negb andb].
  exact (takeDigits_allDigits s _ _ H).
Qed.

Lemma exponentDigits_sound neg digits whole e rest :
  exponentDigits neg digits whole = (e, rest) ->
  (e = 0 /\ rest = whole)
  \/ exists ds, digits = ds ++ rest /\ isDecimalDigits ds = true
                /\ e = (if neg then - digitsValue 0 ds else digitsValue 0 ds).
Proof.
  unfold exponentDigits. destruct (takeDigits digits) as [ds s3] eqn:E.
  destruct ds as [|c ds']; intros H; injection H as <- <-; [now left |].
  right. exists (String c ds'). split; [exact (takeDigits_split _ _ _ E) |].
  split; [exact (takeDigits_decimalDigits _ _ _ _ E) | reflexivity].
Qed.

Lemma scanExponent_sound s e rest :
  scanExponent s = (e, rest) ->
  exists ex, s = ex ++ rest /\ ExponentPart ex e.
Proof.
  assert (Hnone : forall s', exists ex, s' = ex ++ s' /\ ExponentPart ex 0)
    by (intros s'; exists ""; split; [reflexivity | constructor]).
  destruct s as [|c s1]; cbn [scanExponent].
  - intros H. injection H as <- <-. apply Hnone.
  - destruct (isExponentIndicator c) eqn:Hc;
      [| intros H; injection H as <- <-; apply Hnone].
    destruct s1 as [|d r].
    + intros H. cbn in H. injection H as <- <-. apply Hnone.
    + destruct (Ascii.eqb_spec d "+") as [-> | Hplus];
        [| destruct (Ascii.eqb_spec d "-") as [-> | Hminus]];
        intros H; apply exponentDigits_sound in H;
        destruct H as [[-> ->] | (ds & E & Hds & ->)]; try apply Hnone.
      * exists (String c (String "+" ds)). cbn [append]. rewrite E.
        split; [reflexivity | now constructor].
      * exists (String c (String "-" ds)). cbn [append]. rewrite E.
        split; [reflexivity | now constructor].
      * exists (String c ds). cbn [append]. rewrite E.
        split; [reflexivity | now constructor].
Qed.

Lemma scanNoFraction_sound i s1 u rest :
  JSString.allChars isDigit i = true ->
  scanNoFraction i s1 = Some (u, rest) ->
  exists b, i ++ s1 = b ++ rest /\ StrUnsignedDecimalLiteral b u.
Proof.
  intros Hi. unfold scanNoFraction. destruct i as [|c i]; [discriminate |].
  destruct (scanExponent s1) as [e s4] eqn:E. intros H. injection H as <- <-.
  destruct (scanExponent_sound s1 e s4 E) as (ex & -> & Hex).
  exists (String c i ++ ex). split; [now rewrite append_assoc |].
  constructor; [| exact Hex]. unfold isDecimalDigits. now rewrite Hi.
Qed.

Lemma scanFraction_sound i s2 u rest :
  JSString.allChars isDigit i = true ->
  scanFraction i s2 = Some (u, rest) ->
  exists b, i ++ String "." s2 = b ++ rest /\ StrUnsignedDecimalLiteral b u.
Proof.
  intros Hi. unfold scanFraction.
  destruct (takeDigits s2) as [f s3] eqn:F.
  assert (Hf := takeDigits_allDigits s2 f s3 F).
  assert (Hs2 := takeDigits_split s2 f s3 F).
  intros H.
  assert (Hne : isEmpty i && isEmpty f = false)
    by (destruct i, f; [discriminate | reflexivity ..]).
  assert (H' : (let (e, s4) := scanExponent s3 in Some (LitDecimal i f e, s4))
               = Some (u, rest)) by (destruct i, f; [discriminate | exact H ..]).
  clear H. destruct (scanExponent s3) as [e s4] eqn:E. injection H' as <- <-.
  destruct (scanExponent_sound s3 e s4 E) as (ex & -> & Hex).
  exists (i ++ "." ++ f ++ ex). split.
  - rewrite Hs2. now rewrite !append_assoc.
  - now constructor.
Qed.

Lemma scanUnsigned_sound s u rest :
  scanUnsigned s = Some (u, rest) ->
  exists b, s = b ++ rest /\ StrUnsignedDecimalLiteral b u.
Proof.
  unfold scanUnsigned. destruct (String.prefix "Infinity" s) eqn:Hinf.
  - intros H. injection H as <- <-. exists "Infinity".
    split; [exact (prefix_Infinity_split s Hinf) | constructor].
  - destruct (takeDigits s) as [i s1] eqn:E.
    assert (Hi := takeDigits_allDigits s i s1 E).
    rewrite (takeDigits_split s i s1 E).
    destruct s1 as [|c s2]; [now apply scanNoFraction_sound |].
    destruct (Ascii.eqb_spec c ".") as [-> | _];
      [now apply scanFraction_sound | now apply scanNoFraction_sound].
Qed.

(** What [scanLiteral] finds is a literal of the grammar, and the text is
    that literal followed by the rest. *)
Lemma scanLiteral_sound s neg u rest :
  scanLiteral s = Some (neg, u, rest) ->
  exists p, s = p ++ rest /\ StrDecimalLiteral p neg u.
Proof.
  assert (Hs : forall n body, scanSigned n body = Some (neg, u, rest) ->
             n = neg /\ exists b, body = b ++ rest /\ StrUnsignedDecimalLiteral b u).
  { unfold scanSigned. intros n body H.
    destruct (scanUnsigned body) as [[u0 r0]|] eqn:E; [| discriminate].
    injection H as -> -> ->. split; [reflexivity |].
    now apply scanUnsigned_sound. }
  unfold scanLiteral. destruct s as [|c r].
  - intros H. destruct (Hs _ _ H) as (<- & b & E & Hb).
    exists b. split; [exact E | now constructor].
  - destruct (Ascii.eqb_spec c "+") as [-> | _];
      [| destruct (Ascii.eqb_spec c "-") as [-> | _]]; intros H;
      destruct (Hs _ _ H) as (<- & b & E & Hb).
    + exists (String "+" b). cbn [append]. rewrite E.
      split; [reflexivity | now constructor].
    + exists (String "-" b). cbn [append]. rewrite E.
      split; [reflexivity | now constructor].
    + exists b. split; [exact E | now constructor].
Qed.

(** The scanner finds a literal exactly when some prefix is one. *)
Lemma scanLiteral_none_iff s :
  scanLiteral s = None <-> ~ hasNumericPrefix s.
Proof.
  split.
  - intros H (p & t & neg & u & -> & Hp).
    exact (scanLiteral_finds p neg u t Hp H).
  - intros H. destruct (scanLiteral s) as [[[neg u] rest]|] eqn:E; [| reflexivity].
    exfalso. apply H. destruct (scanLiteral_sound s neg u rest E) as (p & Es & Hp).
    now exists p, rest, neg, u.
Qed.

End GrammarFacts.

Module RoundFacts.
Import JSNumber JSParse ParseFacts.

Lemma shr_1_nonneg mrs : 0 <= shr_m mrs -> 0 <= shr_m (shr_1 mrs).
Proof.
  destruct mrs as [m r s]. cbn [shr_m].
  destruct m as [|[p|p|]|[p|p|]]; cbn; lia.
Qed.

Lemma iter_pos_invariant {A : Type} (P : A -> Prop) (f : A -> A) :
  (forall x, P x -> P (f x)) -> forall n x, P x -> P (iter_pos f n x).
Proof.
  intros Hf. induction n as [n IH | n IH |]; intros x Hx; cbn; auto.
Qed.

Lemma shr_fexp_nonneg m e l :
  0 <= m -> 0 <= shr_m (fst (shr_fexp prec emax m e l)).
Proof.
  intros Hm. unfold shr_fexp, shr.
  assert (H0 : 0 <= shr_m (shr_record_of_loc m l))
    by (destruct l as [|[]]; exact Hm).
  destruct (fexp prec emax (Zdigits2 m + e) - e); cbn [fst]; try exact H0.
  now apply (iter_pos_invariant (fun r => 0 <= shr_m r) shr_1 shr_1_nonneg).
Qed.

Lemma round_nearest_even_nonneg m l : 0 <= m -> 0 <= round_nearest_even m l.
Proof.
  intros Hm. destruct l as [|[]]; cbn; try lia. destruct (Z.even m); lia.
Qed.

(** Rounding a non-negative significand never yields NaN. *)
Lemma binary_round_aux_not_nan sx mx ex lx :
  0 <= mx -> binary_round_aux prec emax sx mx ex lx <> S754_nan.
Proof.
  intros Hm. unfold binary_round_aux.
  assert (H1 := shr_fexp_nonneg mx ex lx Hm).
  destruct (shr_fexp prec emax mx ex lx) as [mrs' e']. cbn [fst] in H1.
  assert (H2 := shr_fexp_nonneg _ e' loc_Exact
                  (round_nearest_even_nonneg (shr_m mrs') (loc_of_shr_record mrs') H1)).
  destruct (shr_fexp prec emax _ e' loc_Exact) as [mrs'' e'']. cbn [fst] in H2.
  destruct (shr_m mrs''); try lia; [discriminate |].
  destruct (e'' <=? emax - prec); discriminate.
Qed.

Lemma roundDecimal_not_nan neg d e : 0 < d -> roundDecimal neg d e <> NaN.
Proof.
  intros Hd. unfold roundDecimal. destruct (0 <=? e) eqn:He.
  - unfold binary_round.
    destruct (shl_align _ _ _) as [mz ez].
    apply binary_round_aux_not_nan. lia.
  - apply Z.leb_gt in He.
    assert (Hp : 0 < 10 ^ (- e)) by (apply Z.pow_pos_nonneg; lia).
    unfold SFdiv_core_binary.
    set (sh := 0 - 0 - _).
    set (m' := match sh with Z.pos _ => Z.shiftl d sh | 0 => d | Z.neg _ => 0 end).
    assert (Hm' : 0 <= m').
    { unfold m'. destruct sh; try lia. apply Z.shiftl_nonneg. lia. }
    assert (Hq := Z.div_pos m' (10 ^ (- e)) Hm' Hp).
    unfold Z.div in Hq.
    destruct (Z.div_eucl m' (10 ^ (- e))) as [q r]. cbn [fst] in Hq.
    now apply binary_round_aux_not_nan.
Qed.

Lemma digitsValue_nonneg s : forall acc, 0 <= acc ->
  JSString.allChars isDigit s = true -> 0 <= digitsValue acc s.
Proof.
  induction s as [|c s IH]; intros acc Hacc Hs; cbn [digitsValue]; [exact Hacc |].
  cbn [JSString.allChars] in Hs. apply andb_prop in Hs as [Hc Hs].
  apply IH; [| exact Hs].
  unfold isDigit in Hc. apply andb_prop in Hc as [Hlo _].
  apply Nat.leb_le in Hlo. lia.
Qed.


Lemma decimal_value_not_nan neg i f e :
  JSString.allChars isDigit i = true -> JSString.allChars isDigit f = true ->
  literalValue neg (LitDecimal i f e) <> NaN.
Proof.
  intros Hi Hf. cbn [literalValue].
  assert (Hd : 0 <= digitsValue 0 (i ++ f)).
  { apply digitsValue_nonneg; [lia |].
    now rewrite StringFacts.allChars_append, Hi, Hf. }
  destruct (Z.eqb_spec (digitsValue 0 (i ++ f)) 0); [discriminate |].
  apply roundDecimal_not_nan. lia.
Qed.

Lemma scanUnsigned_value_not_nan neg s u rest :
  scanUnsigned s = Some (u, rest) -> literalValue neg u <> NaN.
Proof.
  unfold scanUnsigned. destruct (String.prefix "Infinity" s).
  - intros H. injection H as <- _. discriminate.
  - destruct (takeDigits s) as [i s1] eqn:E.
    assert (Hi := takeDigits_allDigits s i s1 E).
    assert (Hno : forall s', scanNoFraction i s' = Some (u, rest) ->
                             literalValue neg u <> NaN).
    { unfold scanNoFraction. intros s' H. destruct i; [discriminate |].
      destruct (scanExponent s') as [e s4]. injection H as <- _.
      now apply decimal_value_not_nan. }
    destruct s1 as [|c s2]; [apply Hno |].
    destruct (Ascii.eqb c "."); [| apply Hno].
    unfold scanFraction. destruct (takeDigits s2) as [f s3] eqn:F.
    assert (Hf := takeDigits_allDigits s2 f s3 F).
    intros H.
    destruct i, f; try discriminate;
      destruct (scanExponent s3) as [e s4]; injection H as <- _;
      now apply decimal_value_not_nan.
Qed.

(** The value of a scanned literal is a number, never NaN. *)
Lemma scanLiteral_value_not_nan s neg u rest :
  scanLiteral s = Some (neg, u, rest) -> literalValue neg u <> NaN.
Proof.
  assert (Hs : forall n body, scanSigned n body = Some (neg, u, rest) ->
                              literalValue neg u <> NaN).
  { unfold scanSigned. intros n body H.
    destruct (scanUnsigned body) as [[u0 r0]|] eqn:E; [| discriminate].
    injection H as -> -> ->. exact (scanUnsigned_value_not_nan neg body u rest E). }
  unfold scanLiteral. destruct s as [|c r]; [apply Hs |].
  destruct (Ascii.eqb c "+"); [apply Hs |].
  destruct (Ascii.eqb c "-"); apply Hs.
Qed.

(** [parseFloat] is NaN exactly when no prefix of the trimmed text is a
    literal. *)
Lemma parseFloat_nan_iff raw :
  parseFloat raw = NaN <-> scanLiteral (trimStart raw) = None.
Proof.
  unfold parseFloat.
  destruct (scanLiteral (trimStart raw)) as [[[neg u] rest]|] eqn:E.
  - split; [| discriminate]. intros H.
    now destruct (scanLiteral_value_not_nan _ _ _ _ E).
  - split; reflexivity.
Qed.

(** A text that starts with a printable ASCII character has no white space
    to trim. *)
Lemma trimStart_printable c s :
  (33 <= byte c < 128)%nat -> trimStart (String c s) = String c s.
Proof.
  intros Hc. cbn [trimStart]. unfold isAsciiSpace.
  set (n := byte c) in *.
  destruct (Nat.leb_spec 9 n); destruct (Nat.leb_spec n 13); try lia;
    destruct (Nat.eqb_spec n 32); try lia; cbn [andb orb].
  - destruct s as [|c2 s2]; [reflexivity |].
    destruct (Nat.eqb_spec n 194); [lia |]. cbn [andb].
    destruct s2 as [|c3 s3]; [reflexivity |].
    destruct (Nat.eqb_spec n 225); [lia |].
    destruct (Nat.eqb_spec n 226); [lia |].
    destruct (Nat.eqb_spec n 227); [lia |].
    destruct (Nat.eqb_spec n 239); [lia |]. reflexivity.
Qed.

Lemma isDigit_printable c : isDigit c = true -> (33 <= byte c < 128)%nat.
Proof.
  unfold isDigit, byte. intros H. apply andb_prop in H as [H1 H2].
  apply Nat.leb_le in H1, H2. lia.
Qed.

(** A text that starts with a literal starts with a sign, a digit, a point
    or the [I] of [Infinity]: there is nothing to trim. *)
Lemma scanLiteral_trimmed p neg u rest :
  scanLiteral p = Some (neg, u, rest) -> trimStart p = p.
Proof.
  intros H. destruct p as [|c p]; [discriminate |].
  apply trimStart_printable.
  unfold scanLiteral in H.
  destruct (Ascii.eqb_spec c "+") as [-> | _]; [cbn; lia |].
  destruct (Ascii.eqb_spec c "-") as [-> | _]; [cbn; lia |].
  unfold scanSigned in H.
  destruct (scanUnsigned (String c p)) as [[u0 r0]|] eqn:E; [| discriminate].
  destruct (String.prefix "Infinity" (String c p)) eqn:Hinf.
  - cbn [String.prefix] in Hinf.
    destruct (ascii_dec "I" c) as [<- |]; [cbn; lia | discriminate].
  - destruct (scanUnsigned_decimal_head _ _ _ Hinf E) as (c' & p' & Heq & Hc).
    injection Heq as <- _.
    destruct Hc as [Hc | ->]; [now apply isDigit_printable | cbn; lia].
Qed.

End RoundFacts.

Module ParseClaims.
Import JSNumber JSParse App ConvertFacts ParseFacts GrammarFacts RoundFacts.

(** C10.  When the amount text is a decimal literal [p] of the grammar
    (digits, with or without a fraction and an exponent, signed or not)
    followed by text [t] that cannot make the literal longer (letters such
    as ["abc"], ["EUR"], ["euro"] or a lone ["e"], a space, a unit sign),
    [parseFloat] gives the value of [p]: the amount used is that of the
    numeric prefix, it is not NaN and so does not fall back to zero, and a
    conversion of that text completes normally and shows the formatted
    product of the value of [p] and the sell rate.  The fall-back (NaN)
    happens exactly for the texts none of whose prefixes, after trimming,
    is a literal. *)
Theorem numeric_prefix_value p t neg u :
  StrDecimalLiteral p neg u ->
  cannotExtend p t = true ->
  parseFloat (p ++ t) = literalValue neg u
  /\ parseFloat (p ++ t) = parseFloat p
  /\ parseFloat (p ++ t) <> NaN
  /\ amountOf (p ++ t) = amountOf p
  /\ (forall w data code r,
        ratesData w = Some data ->
        currency (elements w) = Some code ->
        amount (elements w) = Some (p ++ t) ->
        assoc code (rates data) = Some r ->
        snd (convertCurrency w) = Normal
        /\ resultText (fst (convertCurrency w))
           = option_map (fun _ => formatNPR (mul (amountOf p) (sell r)))
               (resultAmount (elements w)))
  /\ (forall raw, parseFloat raw = NaN <-> ~ hasNumericPrefix (trimStart raw)).
Proof.
  intros Hp Ht.
  assert (Hpt := scanLiteral_complete p neg u t Hp Ht).
  assert (Hp0 := scanLiteral_complete p neg u "" Hp eq_refl).
  rewrite StringFacts.append_nil_r in Hp0.
  assert (E1 : parseFloat (p ++ t) = literalValue neg u).
  { unfold parseFloat. now rewrite (scanLiteral_trimmed _ _ _ _ Hpt), Hpt. }
  assert (E2 : parseFloat p = literalValue neg u).
  { unfold parseFloat. now rewrite (scanLiteral_trimmed _ _ _ _ Hp0), Hp0. }
  split; [exact E1 |]. split; [now rewrite E1, E2 |].
  split; [rewrite E1; exact (scanLiteral_value_not_nan _ _ _ _ Hp0) |].
  assert (E3 : amountOf (p ++ t) = amountOf p)
    by (unfold amountOf; now rewrite E1, E2).
  split; [exact E3 |]. split.
  - intros w data code r Hd Hc Ha Hr.
    rewrite (convertCurrency_known w data code (p ++ t) r Hd Hc Ha Hr), E3.
    cbn [fst snd]. split; [reflexivity |].
    now rewrite resultText_animate, resultText_writeRate, resultText_writeResult.
  - intros raw. rewrite parseFloat_nan_iff. apply scanLiteral_none_iff.
Qed.

(** Amounts typed with a unit: the digits before it are the amount, with a
    fraction, a sign and an exponent when they are there; letters that only
    look like the start of an exponent end the number. *)
Lemma numeric_prefix_value_witness :
  (parseFloat "12abc" = ofZ 12 /\ amountOf "12abc" = ofZ 12
   /\ resultText (fst (convertCurrency (Examples.readyWorld "XXX" "12abc")))
      = Some "रू 1,200.00")
  /\ parseFloat "100EUR" = ofZ 100
  /\ parseFloat "12euro" = ofZ 12
  /\ parseFloat "5e" = ofZ 5
  /\ parseFloat "12.5kg" = binary_normalize prec emax 25 (-1) false
  /\ parseFloat ".5x" = binary_normalize prec emax 1 (-1) false
  /\ parseFloat "-1.5e3 NPR" = SFopp (ofZ 1500)
  /\ parseFloat "12." = ofZ 12.
Proof.
  assert (Hint : forall i, isDecimalDigits i = true ->
            StrDecimalLiteral i false (LitDecimal i "" 0)).
  { intros i Hi. apply LiteralUnsigned.
    rewrite <- (StringFacts.append_nil_r i) at 1.
    exact (UnsignedInteger i "" 0 Hi NoExponent). }
  refine (conj (conj _ (conj _ _))
            (conj _ (conj _ (conj _ (conj _ (conj _ (conj _ _))))))).
  - destruct (numeric_prefix_value "12" "abc" false (LitDecimal "12" "" 0)
                (Hint "12" eq_refl) eq_refl) as (H & _).
    change ("12" ++ "abc") with "12abc" in H. rewrite H. vm_compute. reflexivity.
  - destruct (numeric_prefix_value "12" "abc" false (LitDecimal "12" "" 0)
                (Hint "12" eq_refl) eq_refl) as (_ & _ & _ & H & _).
    change ("12" ++ "abc") with "12abc" in H. rewrite H. vm_compute. reflexivity.
  - destruct (numeric_prefix_value "12" "abc" false (LitDecimal "12" "" 0)
                (Hint "12" eq_refl) eq_refl) as (_ & _ & _ & _ & H & _).
    destruct (H (Examples.readyWorld "XXX" "12abc") Examples.snapshotXXX "XXX"
                Examples.rateXXX eq_refl eq_refl eq_refl eq_refl) as (_ & ->).
    vm_compute. reflexivity.
  - destruct (numeric_prefix_value "100" "EUR" false (LitDecimal "100" "" 0)
                (Hint "100" eq_refl) eq_refl) as (H & _).
    change ("100" ++ "EUR") with "100EUR" in H. rewrite H. vm_compute. reflexivity.
  - destruct (numeric_prefix_value "12" "euro" false (LitDecimal "12" "" 0)
                (Hint "12" eq_refl) eq_refl) as (H & _).
    change ("12" ++ "euro") with "12euro" in H. rewrite H. vm_compute. reflexivity.
  - destruct (numeric_prefix_value "5" "e" false (LitDecimal "5" "" 0)
                (Hint "5" eq_refl) eq_refl) as (H & _).
    change ("5" ++ "e") with "5e" in H. rewrite H. vm_compute. reflexivity.
  - destruct (numeric_prefix_value "12.5" "kg" false (LitDecimal "12" "5" 0)
                (LiteralUnsigned _ _
                   (UnsignedPoint "12" "5" "" 0 eq_refl eq_refl eq_refl NoExponent))
                eq_refl) as (H & _).
    change ("12.5" ++ "kg") with "12.5kg" in H. rewrite H. vm_compute. reflexivity.
  - destruct (numeric_prefix_value ".5" "x" false (LitDecimal "" "5" 0)
                (LiteralUnsigned _ _
                   (UnsignedPoint "" "5" "" 0 eq_refl eq_refl eq_refl NoExponent))
                eq_refl) as (H & _).
    change (".5" ++ "x") with ".5x" in H. rewrite H. vm_compute. reflexivity.
  - destruct (numeric_prefix_value "-1.5e3" " NPR" true (LitDecimal "1" "5" 3)
                (LiteralMinus _ _
                   (UnsignedPoint "1" "5" "e3" 3 eq_refl eq_refl eq_refl
                      (ExponentUnsigned "e" "3" eq_refl eq_refl)))
                eq_refl) as (H & _).
    change ("-1.5e3" ++ " NPR") with "-1.5e3 NPR" in H. rewrite H.
    vm_compute. reflexivity.
  - destruct (numeric_prefix_value "12." "" false (LitDecimal "12" "" 0)
                (LiteralUnsigned _ _
                   (UnsignedPoint "12" "" "" 0 eq_refl eq_refl eq_refl NoExponent))
                eq_refl) as (H & _).
    change ("12." ++ "") with "12." in H. rewrite H. vm_compute. reflexivity.
Defined.

End ParseClaims.

Module DebounceFacts.
Import Debounce.

Lemma last_cons {A : Type} : forall (more : list A) (x d : A),
  last (x :: more) d = last more x.
Proof.
  induction more as [|y more IH]; intros x d; [reflexivity |].
  change (last (x :: y :: more) d) with (last (y :: more) d).
  rewrite (IH y d). symmetry. apply (IH y x).
Qed.

Section WithAction.

Context {Args AppState : Type}.
Variable func : Args -> AppState -> AppState.
Variable wait : Z.

Lemma clearTimeout_own (tm : Timer Args) :
  clearTimeout (Some (handle tm)) [tm] = [].
Proof. cbn. now rewrite Nat.eqb_refl. Qed.

Lemma advance_nothing_pending t (h : Host Args AppState) :
  pending h = [] ->
  advance func t h
  = {| now := Z.max (now h) t; timeout := timeout h; pending := [];
       nextHandle := nextHandle h; app := app h; calls := calls h |}.
Proof. intros Hp. unfold advance. rewrite Hp. cbn. now rewrite Hp. Qed.

Lemma advance_before_due t (h : Host Args AppState) tm :
  pending h = [tm] -> t < due tm ->
  advance func t h
  = {| now := Z.max (now h) t; timeout := timeout h; pending := [tm];
       nextHandle := nextHandle h; app := app h; calls := calls h |}.
Proof.
  intros Hp Ht. unfold advance. rewrite Hp. cbn [List.length fireDue].
  rewrite Hp. cbn [takeDue].
  destruct (Z.leb_spec (due tm) t); [lia |]. now rewrite Hp.
Qed.

Lemma advance_fires t (h : Host Args AppState) tm :
  pending h = [tm] -> timeout h = Some (handle tm) -> due tm <= t ->
  advance func t h
  = {| now := Z.max (Z.max (now h) (due tm)) t; timeout := timeout h;
       pending := []; nextHandle := nextHandle h;
       app := func (captured tm) (app h);
       calls := calls h ++ [(Z.max (now h) (due tm), captured tm)] |}.
Proof.
  intros Hp Hto Ht. unfold advance. rewrite Hp. cbn [List.length fireDue].
  rewrite Hp. cbn [takeDue].
  destruct (Z.leb_spec (due tm) t); [| lia].
  cbn [fireDue]. unfold later.
  cbn [now timeout pending nextHandle app calls]. rewrite Hto. reflexivity.
Qed.

Lemma trigger_when_idle ev (h : Host Args AppState) :
  pending h = [] -> now h <= fst ev ->
  armed wait (trigger func wait ev h) (fst ev) (snd ev)
  /\ calls (trigger func wait ev h) = calls h
  /\ app (trigger func wait ev h) = app h.
Proof.
  intros Hp Hn. unfold trigger. rewrite (advance_nothing_pending _ _ Hp).
  unfold executedFunction, armed. cbn [now timeout pending nextHandle app calls].
  assert (Hc : clearTimeout (timeout h) (@nil (Timer Args)) = [])
    by (destruct (timeout h); reflexivity).
  rewrite Hc. repeat split; try lia.
  exists (nextHandle h). split; [reflexivity |]. cbn [List.app].
  now rewrite Z.max_r by lia.
Qed.

(** A trigger that arrives while a timer is armed and not yet due cancels
    it and arms a new one. *)
Lemma trigger_restarts ev (h : Host Args AppState) t a :
  armed wait h t a -> t <= fst ev < t + wait ->
  armed wait (trigger func wait ev h) (fst ev) (snd ev)
  /\ calls (trigger func wait ev h) = calls h
  /\ app (trigger func wait ev h) = app h.
Proof.
  intros (Hn & id & Hto & Hp) Hev. unfold trigger.
  rewrite (advance_before_due _ _ _ Hp) by (cbn; lia).
  unfold executedFunction, armed. cbn [now timeout pending nextHandle app calls].
  rewrite Hto.
  change (clearTimeout (Some id) _) with
    (clearTimeout (Some (handle {| handle := id; due := t + wait; captured := a |}))
       [{| handle := id; due := t + wait; captured := a |}]).
  rewrite clearTimeout_own. repeat split; try lia.
  exists (nextHandle h). split; [reflexivity |]. cbn [List.app].
  now rewrite Z.max_r by lia.
Qed.

(** Along a burst every trigger leaves exactly its own timer armed, and
    the action has not run. *)
Lemma burst_keeps_one_timer : forall more (h : Host Args AppState) t a,
  armed wait h t a -> closelySpaced wait t more ->
  armed wait (run func wait more h) (fst (last more (t, a))) (snd (last more (t, a)))
  /\ calls (run func wait more h) = calls h
  /\ app (run func wait more h) = app h
  /\ Forall2 (fun ev h' => armed wait h' (fst ev) (snd ev) /\ calls h' = calls h)
       more (runTrace func wait more h).
Proof.
  induction more as [|ev more IH]; intros h t a Harmed Hsp.
  - cbn. split; [exact Harmed |]. repeat split. constructor.
  - destruct Hsp as [Hev Hrest].
    destruct (trigger_restarts ev h t a Harmed Hev) as (Ha & Hc & Hap).
    destruct (IH _ _ _ Ha Hrest) as (Ha' & Hc' & Hap' & Htr).
    rewrite last_cons. rewrite <- (surjective_pairing ev) in Ha'. cbn [run fold_left runTrace].
    change (fold_left _ more ?x) with (run func wait more x).
    split; [exact Ha' |]. split; [congruence |]. split; [congruence |].
    constructor; [split; assumption |].
    eapply Forall2_impl; [| exact Htr].
    intros e h' [H1 H2]. split; [exact H1 | congruence].
Qed.

End WithAction.

End DebounceFacts.

Module DebounceClaims.
Import Debounce DebounceFacts.

Section WithAction.

Context {Args AppState : Type}.
Variable func : Args -> AppState -> AppState.
Variable wait : Z.

(** C6.  A burst of debounced triggers, each less than [wait] after the one
    before, runs the action exactly once: after every trigger of the burst
    exactly one timer is armed (the one just set; the one before is
    cancelled) and the action has not run; it has still not run at any time
    before the last trigger plus [wait]; and once that time is reached it has
    run once, at that time, with the arguments of the last trigger, and no
    timer is left. *)
Theorem debounce_burst_fires_once
  (t0 : Z) (a0 : AppState) (first : Z * Args) (more : list (Z * Args)) :
  0 <= wait ->
  t0 <= fst first ->
  closelySpaced wait (fst first) more ->
  let evs := first :: more in
  let final := last more first in
  let h := run func wait evs (idle t0 a0) in
  armed wait h (fst final) (snd final)
  /\ calls h = []
  /\ Forall2 (fun ev h' => armed wait h' (fst ev) (snd ev) /\ calls h' = [])
       evs (runTrace func wait evs (idle t0 a0))
  /\ (forall T, T < fst final + wait -> calls (advance func T h) = [])
  /\ (forall T, fst final + wait <= T ->
       calls (advance func T h) = [(fst final + wait, snd final)]
       /\ pending (advance func T h) = []
       /\ app (advance func T h) = func (snd final) a0).
Proof.
  intros Hw Ht0 Hsp evs final h.
  destruct (trigger_when_idle func wait first (idle t0 a0) eq_refl Ht0)
    as (Ha1 & Hc1 & Hp1).
  destruct (burst_keeps_one_timer func wait more _ _ _ Ha1 Hsp)
    as (Ha & Hc & Hp & Htr).
  rewrite <- (surjective_pairing first) in Ha.
  assert (Hh : h = run func wait more (trigger func wait first (idle t0 a0)))
    by reflexivity.
  fold final in Ha. rewrite <- Hh in Ha, Hc, Hp.
  assert (Hcalls : calls h = []) by (rewrite Hc, Hc1; reflexivity).
  assert (Happ : app h = a0) by (rewrite Hp, Hp1; reflexivity).
  split; [exact Ha |]. split; [exact Hcalls |]. split.
  { unfold evs. cbn [runTrace]. constructor; [split; assumption |].
    eapply Forall2_impl; [| exact Htr].
    intros e h' [H1 H2]. split; [exact H1 | now rewrite H2, Hc1]. }
  destruct Ha as (Hnow & id & Hto & Hpend).
  split.
  - intros T HT. rewrite (advance_before_due func T h _ Hpend) by (cbn; lia).
    exact Hcalls.
  - intros T HT.
    rewrite (advance_fires func T h _ Hpend Hto) by (cbn; lia).
    cbn [calls pending app due captured]. rewrite Hcalls, Happ, Hnow.
    rewrite Z.max_r by lia. repeat split.
Qed.

End WithAction.

(** The input listener of the amount field, [debounce(convertCurrency, 300)],
    hit three times within a burst: one conversion, 300 time units after the
    last keystroke. *)
Lemma debounce_burst_fires_once_witness :
  calls (advance convertAction 1000
           (run convertAction inputWait [(0, tt); (100, tt); (350, tt)]
              (idle 0 (Examples.readyWorld "XXX" "2"))))
  = [(650, tt)]
  /\ App.resultText
       (app (advance convertAction 1000
               (run convertAction inputWait [(0, tt); (100, tt); (350, tt)]
                  (idle 0 (Examples.readyWorld "XXX" "2")))))
     = Some "रू 200.00".
Proof.
  destruct (debounce_burst_fires_once convertAction inputWait 0
              (Examples.readyWorld "XXX" "2") (0, tt) [(100, tt); (350, tt)])
    as (_ & _ & _ & _ & Hfire).
  - unfold inputWait. lia.
  - cbn. lia.
  - cbn. unfold inputWait. lia.
  - destruct (Hfire 1000) as (Hc & _ & Ha).
    + cbn. unfold inputWait. lia.
    + split; [exact Hc |]. rewrite Ha. vm_compute. reflexivity.
Defined.

End DebounceClaims.

Module GroupingFacts.
Import JSNumber StringFacts DigitFacts FixedFacts FormatFacts FormatNPRFacts App.

(** *** Characters of the grouped string *)

Lemma allChars_forallb p s :
  JSString.allChars p s = forallb p (list_ascii_of_string s).
Proof. induction s as [|c s IH]; cbn; [reflexivity | now rewrite IH]. Qed.

Lemma allChars_string_of p l :
  JSString.allChars p (string_of_list_ascii l) = forallb p l.
Proof.
  now rewrite allChars_forallb, list_ascii_of_string_of_list_ascii.
Qed.

Lemma forallb_rev {A} (p : A -> bool) l : forallb p (rev l) = forallb p l.
Proof.
  induction l as [|x l IH]; [reflexivity |].
  cbn [rev forallb]. rewrite forallb_app, IH. cbn. rewrite andb_true_r.
  apply andb_comm.
Qed.

Lemma forallb_pairs p l :
  p ","%char = true -> forallb p l = true ->
  forallb p (Spec.pairsLeftwards l) = true.
Proof.
  intros Hc. induction l as [| a | a b l IH] using pairs_ind;
    cbn [Spec.pairsLeftwards forallb]; intros H.
  - reflexivity.
  - now rewrite Hc, H.
  - apply andb_prop in H as [Ha H]. apply andb_prop in H as [Hb H].
    now rewrite Hc, Ha, Hb, (IH H).
Qed.

(** Grouping adds commas and nothing else. *)
Lemma groupDigits_chars p s :
  p ","%char = true -> JSString.allChars p s = true ->
  JSString.allChars p (Spec.groupDigits s) = true.
Proof.
  intros Hc Hs. unfold Spec.groupDigits.
  destruct (String.length s <=? 3)%nat; [exact Hs |].
  rewrite allChars_string_of, forallb_rev, forallb_app.
  rewrite allChars_forallb, <- forallb_rev in Hs.
  set (R := rev (list_ascii_of_string s)) in *.
  rewrite <- (firstn_skipn 3 R), forallb_app in Hs.
  apply andb_prop in Hs as [H1 H2].
  now rewrite H1, (forallb_pairs p _ Hc H2).
Qed.

Lemma filter_pairs l :
  filter (JSString.notChar ",") (Spec.pairsLeftwards l)
  = filter (JSString.notChar ",") l.
Proof.
  induction l as [| a | a b l IH] using pairs_ind;
    cbn [Spec.pairsLeftwards]; [reflexivity | reflexivity |].
  change (filter _ ("," % char :: a :: b :: Spec.pairsLeftwards l))
    with (filter (JSString.notChar ",") (a :: b :: Spec.pairsLeftwards l)).
  cbn [filter]. rewrite IH. reflexivity.
Qed.

Lemma filter_rev {A} (p : A -> bool) l : filter p (rev l) = rev (filter p l).
Proof.
  induction l as [|x l IH]; [reflexivity |].
  cbn [rev filter]. rewrite filter_app, IH. cbn [filter].
  destruct (p x); cbn [rev]; [reflexivity | now rewrite app_nil_r].
Qed.


Lemma digit_not_comma c : JSParse.isDigit c = true -> JSString.notChar "," c = true.
Proof.
  unfold JSString.notChar.
  destruct (Ascii.eqb_spec c ","); [subst; discriminate | reflexivity].
Qed.

Lemma filter_all {A} (p : A -> bool) l : forallb p l = true -> filter p l = l.
Proof.
  induction l as [|x l IH]; [reflexivity |]. cbn [forallb filter].
  intros H. apply andb_prop in H as [Hx Hl]. now rewrite Hx, (IH Hl).
Qed.

Lemma removeCommas_groupDigits s :
  JSString.removeCommas (Spec.groupDigits s) = JSString.removeCommas s.
Proof.
  unfold Spec.groupDigits.
  destruct (String.length s <=? 3)%nat; [reflexivity |].
  unfold JSString.removeCommas, JSString.filterChars.
  rewrite list_ascii_of_string_of_list_ascii, filter_rev, filter_app, filter_pairs.
  rewrite <- filter_app, firstn_skipn, <- filter_rev, rev_involutive.
  reflexivity.
Qed.

(** [toFixed(2)] never starts with a minus sign unless the number is
    negative: its digits are decimal digits. *)
Lemma aux_allDigits fuel : forall n acc,
  JSString.allChars JSParse.isDigit acc = true ->
  JSString.allChars JSParse.isDigit (decimalDigits_aux fuel n acc) = true.
Proof.
  induction fuel as [|fuel IH]; intros n acc Hacc; cbn [decimalDigits_aux];
    [exact Hacc |].
  assert (Hd : JSString.allChars JSParse.isDigit
                 (String (digitChar (n mod 10)) acc) = true).
  { cbn [JSString.allChars]. rewrite Hacc, isDigit_digitChar; [reflexivity |].
    apply Z.mod_pos_bound; lia. }
  destruct (n <? 10); [exact Hd | now apply IH].
Qed.

Lemma decimalDigits_allDigits_any n :
  JSString.allChars JSParse.isDigit (decimalDigits n) = true.
Proof. unfold decimalDigits. now apply aux_allDigits. Qed.

Lemma startsWith_minus_digits c rest :
  JSParse.isDigit c = true -> JSString.startsWith (String c rest) "-" = false.
Proof. apply startsWith_digit. Qed.

Lemma exponentialString_no_minus s n :
  JSString.startsWith (exponentialString s n) "-" = false.
Proof.
  unfold exponentialString.
  assert (H := decimalDigits_allDigits_any s).
  destruct (decimalDigits s) as [|d rest]; [reflexivity |].
  cbn [JSString.allChars] in H. apply andb_prop in H as [Hd _].
  destruct rest; now apply startsWith_digit.
Qed.

Lemma toStringLarge_no_minus x v :
  JSString.startsWith (toStringLarge x v) "-" = false.
Proof.
  unfold toStringLarge. destruct (shortestDigits _ _ _ _ _) as [s n].
  apply exponentialString_no_minus.
Qed.

Lemma split_nonempty sep s : exists h rest, JSString.split sep s = h :: rest.
Proof.
  induction s as [|c s (h & rest & IH)]; cbn [JSString.split]; [eauto |].
  destruct (Ascii.eqb c sep); [eauto |]. rewrite IH. eauto.
Qed.

(** The first part of a split starts with a minus sign only if the text
    does. *)
Lemma split_head_minus s :
  JSString.startsWith s "-" = false ->
  JSString.startsWith (nth 0 (JSString.split "." s) "") "-" = false.
Proof.
  destruct s as [|c s]; [reflexivity |]. cbn [JSString.split].
  destruct (Ascii.eqb c "."); [reflexivity |].
  destruct (split_nonempty "." s) as (h & rest & ->). cbn [nth].
  unfold JSString.startsWith. cbn [String.prefix].
  destruct (ascii_dec "-" c); [| reflexivity].
  destruct s; discriminate.
Qed.

End GroupingFacts.

Module FormatterProperties.
Import JSNumber StringFacts DigitFacts FixedFacts FormatFacts FormatNPRFacts App.
Import GroupingFacts.

(** Below 10^21 in absolute value [formatNPR] is the formatter of the
    specification: same rounding, same grouping, same layout. *)
Theorem formatNPR_matches_spec_below_1e21 s m e :
  atLeast1e21 m e = false ->
  Spec.format (S754_finite s m e) = Some (formatNPR (S754_finite s m e)).
Proof.
  intros H. rewrite (formatNPR_finite s m e H).
  unfold Spec.format. rewrite <- roundScaled_hundredths.
  destruct s; reflexivity.
Qed.

Lemma formatNPR_matches_spec_below_1e21_witness :
  formatNPR (ofZ 1234567) = "रू 12,34,567.00".
Proof.
  assert (H := formatNPR_matches_spec_below_1e21 false 5302424889720832 (-32) eq_refl).
  change (S754_finite false 5302424889720832 (-32)) with (ofZ 1234567) in H.
  apply (f_equal (fun o => match o with Some t => t | None => "" end)) in H.
  cbn beta iota in H. rewrite <- H. vm_compute. reflexivity.
Defined.

(** The while loop of [formatNPR] ends within [remaining.length] rounds:
    more rounds change nothing. *)
Theorem grouping_loop_ends remaining formatted extra :
  groupLoop (String.length remaining + extra) remaining formatted
  = groupLoop (String.length remaining) remaining formatted.
Proof. apply groupLoop_fuel; lia. Qed.

(** Grouping only inserts commas: taking the commas out of the grouped
    string gives back the ungrouped text (with any comma it already had
    removed as well). *)
Theorem grouping_keeps_the_digits intPart :
  JSString.removeCommas (groupCode intPart) = JSString.removeCommas intPart.
Proof. rewrite groupCode_spec. apply removeCommas_groupDigits. Qed.

(** Below 10^21 in absolute value the formatted amount ends in a point and
    exactly two decimal digits. *)
Theorem formatNPR_two_decimals_below_1e21 s m e :
  atLeast1e21 m e = false ->
  Spec.hasTwoDecimals (formatNPR (S754_finite s m e)) = true.
Proof.
  intros H. rewrite (formatNPR_finite s m e H).
  assert (Hh := roundScaled_nonneg 2 m e).
  set (h := roundScaled 2 m e) in *.
  assert (Hq : 0 <= h / 100) by (apply Z.div_pos; lia).
  assert (Hr : 0 <= h mod 100 < 100) by (apply Z.mod_pos_bound; lia).
  assert (HF := twoDigits_allDigits _ Hr).
  assert (HG : JSString.allChars (JSString.notChar ".")
                 (Spec.groupDigits (decimalDigits (h / 100))) = true).
  { apply groupDigits_chars; [reflexivity |].
    exact (allChars_weaken _ _ _ digit_not_point (decimalDigits_allDigits _ Hq)). }
  set (G := Spec.groupDigits (decimalDigits (h / 100))) in *.
  set (F := Spec.twoDigits (h mod 100)) in *.
  assert (HsF : JSString.split "." F = [F])
    by apply split_without, (allChars_weaken _ _ F digit_not_point HF).
  assert (Hpre : JSString.allChars (JSString.notChar ".")
                   ((if s then "-" else "") ++ "रू " ++ G) = true).
  { rewrite !allChars_append, HG. destruct s; reflexivity. }
  replace ((if s then "-" else "") ++ "रू " ++ G ++ "." ++ F)
    with (((if s then "-" else "") ++ "रू " ++ G) ++ String "." F)
    by (now rewrite !append_assoc).
  unfold Spec.hasTwoDecimals.
  rewrite (split_at_sep _ _ _ Hpre), HsF. cbn [rev List.app].
  unfold Spec.allDigits. rewrite HF. reflexivity.
Qed.

Lemma formatNPR_two_decimals_below_1e21_witness :
  Spec.hasTwoDecimals (formatNPR (ofZ 1234567)) = true.
Proof.
  exact (formatNPR_two_decimals_below_1e21 false 5302424889720832 (-32) eq_refl).
Defined.

(** A negative amount that rounds to zero hundredths keeps its sign: the
    output is the minus sign, the prefix and [0.00]. *)
Theorem formatNPR_negative_rounding_to_zero m e :
  roundScaled 2 m e = 0 ->
  formatNPR (S754_finite true m e) = "-" ++ Spec.currencyPrefix ++ " 0.00".
Proof.
  intros H0.
  assert (Hsmall : atLeast1e21 m e = false).
  { unfold roundScaled in H0. unfold atLeast1e21.
    change (10 ^ Z.of_nat 2) with 100 in H0.
    destruct (0 <=? e) eqn:He.
    - apply Z.leb_le in He.
      assert (0 < 2 ^ e) by (apply Z.pow_pos_nonneg; lia). nia.
    - apply Z.leb_gt in He.
      assert (Hp : 0 < 2 ^ (- e)) by (apply Z.pow_pos_nonneg; lia).
      replace (1 - e) with (Z.succ (- e)) in H0 by lia.
      rewrite Z.pow_succ_r in H0 by lia.
      apply Z.leb_gt.
      destruct (Z_lt_le_dec (Z.pos m) (10 ^ 21 * 2 ^ (- e))) as [Hlt | Hge];
        [exact Hlt | exfalso].
      assert (Hbig : 2 * 2 ^ (- e) * 1 <= 2 * Z.pos m * 100 + 2 ^ (- e)).
      { change (10 ^ 21) with 1000000000000000000000 in Hge. nia. }
      assert (Hdiv := Z.div_le_lower_bound _ (2 * 2 ^ (- e)) 1 ltac:(lia) Hbig).
      lia. }
  rewrite (formatNPR_finite true m e Hsmall), H0. reflexivity.
Qed.

Lemma formatNPR_negative_rounding_to_zero_witness :
  formatNPR (JSParse.parseFloat "-0.004") = "-रू 0.00".
Proof.
  exact (formatNPR_negative_rounding_to_zero 4611686018427388 (-60) eq_refl).
Defined.

(** The output starts with a minus sign exactly for the negative amounts
    (negative finite numbers and minus infinity), whatever their size: the
    sign is put first, before the prefix.  Zero of either sign and NaN get
    none. *)
Theorem formatNPR_minus_sign_first x :
  JSString.startsWith (formatNPR x) "-" = isNegative x
  /\ (isNegative x = true ->
       exists rest, formatNPR x = "-" ++ Spec.currencyPrefix ++ " " ++ rest).
Proof.
  destruct x as [s | s | | s m e].
  - split; [destruct s; reflexivity | discriminate].
  - destruct s; (split; [vm_compute; reflexivity |]); [| discriminate].
    intros _. eexists. vm_compute. reflexivity.
  - split; [vm_compute; reflexivity | discriminate].
  - unfold formatNPR. rewrite strictEq_finite_zero. unfold toFixed.
    set (body := if atLeast1e21 m e then _ else _).
    assert (Hbody : JSString.startsWith body "-" = false).
    { unfold body. destruct (atLeast1e21 m e).
      - apply toStringLarge_no_minus.
      - rewrite fixedDigits_two by apply roundScaled_nonneg.
        destruct (decimalDigits_nonempty (roundScaled 2 m e / 100))
          as (c & rest & -> & Hc);
          [apply Z.div_pos; [apply roundScaled_nonneg | lia] |].
        now apply startsWith_digit. }
    destruct s; cbn [append isNegative].
    + clearbody body.
      change (JSString.split "." (String "-" body))
        with (match JSString.split "." body with
              | [] => ["-"]
              | h :: t => String "-" h :: t
              end).
      destruct (split_nonempty "." body) as (h & rest & ->).
      cbn [nth nth_error]. rewrite startsWith_minus, substring_after_minus.
      split; [reflexivity |]. intros _. eexists. reflexivity.
    + clearbody body. rewrite (split_head_minus body Hbody).
      split; [reflexivity | discriminate].
Qed.

End FormatterProperties.

Module ConvertFrame.
Import JSNumber JSParse App ConvertFacts.

Lemma same_refl w : sameInputsAndTable w w.
Proof. repeat split. Qed.

Lemma same_trans w1 w2 w3 :
  sameInputsAndTable w1 w2 -> sameInputsAndTable w2 w3 -> sameInputsAndTable w1 w3.
Proof.
  unfold sameInputsAndTable. intros (A1 & A2 & A3 & A4 & A5 & A6 & A7)
    (B1 & B2 & B3 & B4 & B5 & B6 & B7).
  repeat split; congruence.
Qed.

Lemma same_writeResult t w : sameInputsAndTable w (writeResult t w).
Proof.
  unfold writeResult. destruct (resultAmount (elements w)); repeat split.
Qed.

Lemma same_writeRate t w : sameInputsAndTable w (writeRate t w).
Proof. unfold writeRate. destruct (resultRate (elements w)); repeat split. Qed.

Lemma same_animate w : sameInputsAndTable w (animate w).
Proof. unfold animate. destruct (resultBox (elements w)); repeat split. Qed.

Lemma same_showConversionError msg w :
  sameInputsAndTable w (showConversionError msg w).
Proof.
  unfold showConversionError. destruct (resultAmount (elements w)); repeat split.
Qed.

Lemma box_writeResult t w :
  resultBox (elements (writeResult t w)) = resultBox (elements w)
  /\ scheduled (writeResult t w) = scheduled w.
Proof. unfold writeResult. destruct (resultAmount (elements w)); split; reflexivity. Qed.

Lemma box_writeRate t w :
  resultBox (elements (writeRate t w)) = resultBox (elements w)
  /\ scheduled (writeRate t w) = scheduled w.
Proof. unfold writeRate. destruct (resultRate (elements w)); split; reflexivity. Qed.

Lemma box_animate w :
  resultBox (elements (animate w))
  = option_map (fun _ => "scale(1.02)") (resultBox (elements w))
  /\ scheduled (animate w)
     = (scheduled w ++ match resultBox (elements w) with
                       | Some _ => [(150, ResetScale)]
                       | None => []
                       end)%list.
Proof.
  unfold animate. destruct (resultBox (elements w)) eqn:E; cbn; rewrite ?E;
    split; try reflexivity. now rewrite app_nil_r.
Qed.

Lemma getProperty_cases {A} (own : list (string * A)) key :
  (exists v, assoc key own = Some v /\ getProperty own key = POwn v)
  \/ (assoc key own = None /\ inheritedKey key = true
      /\ exists b, getProperty own key = PInherited b)
  \/ (assoc key own = None /\ inheritedKey key = false
      /\ getProperty own key = PUndefined).
Proof.
  unfold getProperty, inheritedKey.
  destruct (assoc key own) as [v|]; [left; eauto |].
  destruct (assoc key objectPrototype) as [b|]; [right; left | right; right]; eauto.
Qed.

Lemma convertCurrency_unknown w data code raw :
  ratesData w = Some data ->
  currency (elements w) = Some code ->
  amount (elements w) = Some raw ->
  assoc code (rates data) = None ->
  inheritedKey code = false ->
  convertCurrency w = (showConversionError "Currency not available" w, Normal).
Proof.
  intros Hd Hc Ha Hr Hi. unfold convertCurrency. rewrite Hd, Hc, Ha.
  destruct (getProperty_cases (rates data) code)
    as [(v & E & _) | [(_ & E & _) | (_ & _ & ->)]]; try congruence.
  reflexivity.
Qed.

Lemma convertCurrency_inherited w data code raw :
  ratesData w = Some data ->
  currency (elements w) = Some code ->
  amount (elements w) = Some raw ->
  assoc code (rates data) = None ->
  inheritedKey code = true ->
  convertCurrency w = (w, ThrowTypeError).
Proof.
  intros Hd Hc Ha Hr Hi. unfold convertCurrency. rewrite Hd, Hc, Ha.
  destruct (getProperty_cases (rates data) code)
    as [(v & E & _) | [(_ & _ & b & ->) | (_ & E & _)]]; try congruence.
  reflexivity.
Qed.

(** The four ways [convertCurrency] can go. *)
Lemma convertCurrency_cases w :
  (convertCurrency w = (w, Normal)
   /\ (ratesData w = None \/ currency (elements w) = None
       \/ amount (elements w) = None))
  \/ (exists data code raw,
        ratesData w = Some data /\ currency (elements w) = Some code
        /\ amount (elements w) = Some raw
        /\ ((exists r, assoc code (rates data) = Some r)
            \/ (assoc code (rates data) = None /\ inheritedKey code = true)
            \/ (assoc code (rates data) = None /\ inheritedKey code = false))).
Proof.
  unfold convertCurrency.
  destruct (ratesData w) as [data|]; [| left; auto].
  destruct (currency (elements w)) as [code|]; [| left; auto].
  destruct (amount (elements w)) as [raw|]; [| left; auto].
  right. exists data, code, raw. repeat split.
  destruct (getProperty_cases (rates data) code)
    as [(v & E & _) | [(E & I & _) | (E & I & _)]]; eauto.
Qed.

Lemma convert_leaves_inputs_and_table_aux w :
  sameInputsAndTable w (fst (convertCurrency w)).
Proof.
  destruct (convertCurrency_cases w)
    as [[E _] | (data & code & raw & Hd & Hc & Ha & Hcase)].
  - rewrite E. apply same_refl.
  - destruct Hcase as [(r & Hr) | [(Hr & Hi) | (Hr & Hi)]].
    + rewrite (convertCurrency_known w data code raw r Hd Hc Ha Hr). cbn [fst].
      eapply same_trans; [| apply same_animate].
      eapply same_trans; [| apply same_writeRate]. apply same_writeResult.
    + rewrite (convertCurrency_inherited w data code raw Hd Hc Ha Hr Hi).
      apply same_refl.
    + rewrite (convertCurrency_unknown w data code raw Hd Hc Ha Hr Hi).
      apply same_showConversionError.
Qed.

End ConvertFrame.

Module ConvertProperties.
Import JSNumber JSParse App ConvertFacts ConvertFrame.

(** A code that is neither a key of the rates nor a name inherited from
    [Object.prototype] is reported: the result area shows
    ["Currency not available"] in the error colour, the call completes
    normally, and the rate line, the animation, the table, the date line and
    the state variables are left as they were. *)
Theorem convert_unknown_currency_message w data code raw :
  ratesData w = Some data ->
  currency (elements w) = Some code ->
  amount (elements w) = Some raw ->
  assoc code (rates data) = None ->
  inheritedKey code = false ->
  let w' := fst (convertCurrency w) in
  snd (convertCurrency w) = Normal
  /\ resultText w'
     = option_map (fun _ => "Currency not available") (resultAmount (elements w))
  /\ resultColor w'
     = option_map (fun _ => "#dc3545") (resultAmount (elements w))
  /\ rateText w' = rateText w
  /\ resultBox (elements w') = resultBox (elements w)
  /\ scheduled w' = scheduled w
  /\ sameInputsAndTable w w'.
Proof.
  intros Hd Hc Ha Hr Hi.
  rewrite (convertCurrency_unknown w data code raw Hd Hc Ha Hr Hi).
  cbn [fst snd]. split; [reflexivity |].
  unfold showConversionError, resultText, resultColor, rateText.
  destruct (resultAmount (elements w)) eqn:E; cbn; rewrite ?E;
    repeat split; reflexivity.
Qed.

Lemma convert_unknown_currency_message_witness :
  resultText (fst (convertCurrency (Examples.readyWorld "USD" "5")))
  = Some "Currency not available"
  /\ ratesBody (elements (fst (convertCurrency (Examples.readyWorld "USD" "5"))))
     = ratesBody (elements (Examples.readyWorld "USD" "5")).
Proof.
  destruct (convert_unknown_currency_message (Examples.readyWorld "USD" "5")
              Examples.snapshotXXX "USD" "5" eq_refl eq_refl eq_refl eq_refl eq_refl)
    as (_ & Ht & _ & _ & _ & _ & Hs).
  split; [exact Ht | apply Hs].
Defined.

(** [convertCurrency] throws exactly when a snapshot is loaded, both input
    controls exist, and the selected code is no key of the rates but names a
    member of [Object.prototype]; nothing has been written when it does. *)
Theorem convert_throws_exactly_on_inherited_keys w :
  (snd (convertCurrency w) = ThrowTypeError
   <-> exists data code,
         ratesData w = Some data /\ currency (elements w) = Some code
         /\ amount (elements w) <> None
         /\ assoc code (rates data) = None /\ inheritedKey code = true)
  /\ (snd (convertCurrency w) = ThrowTypeError -> fst (convertCurrency w) = w).
Proof.
  destruct (convertCurrency_cases w)
    as [[E Hnone] | (data & code & raw & Hd & Hc & Ha & Hcase)].
  - rewrite E. cbn [fst snd]. split; [| discriminate]. split; [discriminate |].
    intros (data & code & Hd & Hc & Ha & _).
    destruct Hnone as [H | [H | H]]; congruence.
  - destruct Hcase as [(r & Hr) | [(Hr & Hi) | (Hr & Hi)]].
    + rewrite (convertCurrency_known w data code raw r Hd Hc Ha Hr).
      cbn [fst snd]. split; [| discriminate]. split; [discriminate |].
      intros (d' & c' & Hd' & Hc' & _ & Hr' & _). congruence.
    + rewrite (convertCurrency_inherited w data code raw Hd Hc Ha Hr Hi).
      cbn [fst snd]. split; [| reflexivity]. split; [| reflexivity].
      intros _. exists data, code. rewrite Ha. repeat split; try assumption.
      discriminate.
    + rewrite (convertCurrency_unknown w data code raw Hd Hc Ha Hr Hi).
      cbn [fst snd]. split; [| discriminate]. split; [discriminate |].
      intros (d' & c' & Hd' & Hc' & _ & Hr' & Hi'). congruence.
Qed.

(** Whatever happens, [convertCurrency] never touches the snapshot, the
    loading flag, the values of the two input controls, the date line or the
    table. *)
Theorem convert_leaves_inputs_and_table w :
  sameInputsAndTable w (fst (convertCurrency w)).
Proof. apply convert_leaves_inputs_and_table_aux. Qed.

(** A successful conversion writes the text of the result area, never its
    colour: after an error message has coloured the area, the next amount
    is shown in the error colour. *)
Theorem convert_never_resets_colour w data code raw r msg :
  ratesData w = Some data ->
  currency (elements w) = Some code ->
  amount (elements w) = Some raw ->
  assoc code (rates data) = Some r ->
  resultColor (fst (convertCurrency w)) = resultColor w
  /\ resultColor (fst (convertCurrency (showConversionError msg w)))
     = option_map (fun _ => "#dc3545") (resultAmount (elements w))
  /\ resultText (fst (convertCurrency (showConversionError msg w)))
     = option_map (fun _ => formatNPR (mul (amountOf raw) (sell r)))
         (resultAmount (elements w)).
Proof.
  intros Hd Hc Ha Hr.
  assert (Hcol : forall v, ratesData v = Some data ->
                           currency (elements v) = Some code ->
                           amount (elements v) = Some raw ->
                           resultColor (fst (convertCurrency v)) = resultColor v).
  { intros v Hd' Hc' Ha'.
    rewrite (convertCurrency_known v data code raw r Hd' Hc' Ha' Hr). cbn [fst].
    now rewrite resultColor_animate, resultColor_writeRate, resultColor_writeResult. }
  split; [now apply Hcol |].
  destruct (same_showConversionError msg w) as (S1 & _ & S3 & S4 & _).
  rewrite Hd in S1. rewrite Hc in S3. rewrite Ha in S4.
  split.
  - rewrite (Hcol _ S1 S3 S4).
    unfold showConversionError, resultColor.
    destruct (resultAmount (elements w)) eqn:E; cbn; rewrite ?E; reflexivity.
  - rewrite (convertCurrency_known _ data code raw r S1 S3 S4 Hr). cbn [fst].
    rewrite resultText_animate, resultText_writeRate, resultText_writeResult.
    unfold showConversionError.
    destruct (resultAmount (elements w)) eqn:E; cbn; rewrite ?E; reflexivity.
Qed.

Lemma convert_never_resets_colour_witness :
  resultText
    (fst (convertCurrency
            (showConversionError "Currency not available"
               (Examples.readyWorld "XXX" "2"))))
  = Some "रू 200.00"
  /\ resultColor
       (fst (convertCurrency
               (showConversionError "Currency not available"
                  (Examples.readyWorld "XXX" "2"))))
     = Some "#dc3545".
Proof.
  destruct (convert_never_resets_colour (Examples.readyWorld "XXX" "2")
              Examples.snapshotXXX "XXX" "2" Examples.rateXXX
              "Currency not available" eq_refl eq_refl eq_refl eq_refl)
    as (_ & Hc & Ht).
  rewrite Hc, Ht. split; vm_compute; reflexivity.
Defined.

(** Converting again without any change of input shows the same amount and
    the same rate line; each successful call sets the transform of the
    result box to ["scale(1.02)"] and requests one more reset of the scale
    animation, 150 time units later, when the result box exists. *)
Theorem convert_twice_shows_the_same w data code raw r :
  ratesData w = Some data ->
  currency (elements w) = Some code ->
  amount (elements w) = Some raw ->
  assoc code (rates data) = Some r ->
  let w1 := fst (convertCurrency w) in
  let w2 := fst (convertCurrency w1) in
  let reset := match resultBox (elements w) with
               | Some _ => [(150, ResetScale)]
               | None => []
               end in
  resultText w2 = resultText w1
  /\ rateText w2 = rateText w1
  /\ resultBox (elements w1)
     = option_map (fun _ => "scale(1.02)") (resultBox (elements w))
  /\ resultBox (elements w2)
     = option_map (fun _ => "scale(1.02)") (resultBox (elements w))
  /\ scheduled w1 = (scheduled w ++ reset)%list
  /\ scheduled w2 = (scheduled w1 ++ reset)%list.
Proof.
  intros Hd Hc Ha Hr w1 w2 reset.
  assert (Hshape : forall v, ratesData v = Some data ->
            currency (elements v) = Some code ->
            amount (elements v) = Some raw ->
            let v' := fst (convertCurrency v) in
            resultText v'
            = option_map (fun _ => formatNPR (mul (amountOf raw) (sell r)))
                (resultAmount (elements v))
            /\ rateText v'
               = option_map (fun _ => "1 " ++ code ++ " = NPR " ++ toFixed (sell r) 2)
                   (resultRate (elements v))
            /\ resultBox (elements v')
               = option_map (fun _ => "scale(1.02)") (resultBox (elements v))
            /\ scheduled v'
               = (scheduled v ++ match resultBox (elements v) with
                                 | Some _ => [(150, ResetScale)]
                                 | None => []
                                 end)%list).
  { intros v Hd' Hc' Ha'.
    rewrite (convertCurrency_known v data code raw r Hd' Hc' Ha' Hr). cbn [fst].
    set (t1 := formatNPR _). set (t2 := "1 " ++ _).
    destruct (box_animate (writeRate t2 (writeResult t1 v))) as [B S].
    destruct (box_writeRate t2 (writeResult t1 v)) as [B' S'].
    destruct (box_writeResult t1 v) as [B'' S''].
    rewrite resultText_animate, resultText_writeRate, resultText_writeResult.
    rewrite rateText_animate, rateText_writeRate, resultRate_writeResult.
    rewrite B, S, B', S', B'', S''. repeat split. }
  destruct (convert_leaves_inputs_and_table_aux w) as (S1 & _ & S3 & S4 & _).
  fold w1 in S1, S3, S4. rewrite Hd in S1. rewrite Hc in S3. rewrite Ha in S4.
  destruct (Hshape w Hd Hc Ha) as (T1 & R1 & B1 & C1).
  destruct (Hshape w1 S1 S3 S4) as (T2 & R2 & B2 & C2).
  fold w1 in T1, R1, B1, C1. fold w2 in T2, R2, B2, C2.
  repeat split.
  - rewrite T2. unfold resultText in *.
    destruct (resultAmount (elements w1)), (resultAmount (elements w));
      cbn in *; congruence.
  - rewrite R2. unfold rateText in *.
    destruct (resultRate (elements w1)), (resultRate (elements w));
      cbn in *; congruence.
  - exact B1.
  - rewrite B2, B1. now destruct (resultBox (elements w)).
  - exact C1.
  - rewrite C2. f_equal. unfold reset.
    destruct (resultBox (elements w1)), (resultBox (elements w));
      cbn in *; congruence.
Qed.

Lemma convert_twice_shows_the_same_witness :
  resultText
    (fst (convertCurrency (fst (convertCurrency (Examples.readyWorld "XXX" "2")))))
  = Some "रू 200.00"
  /\ resultBox (elements (fst (convertCurrency (Examples.readyWorld "XXX" "2"))))
     = Some "scale(1.02)"
  /\ resultBox
       (elements
          (fst (convertCurrency
                  (fst (convertCurrency (Examples.readyWorld "XXX" "2"))))))
     = Some "scale(1.02)"
  /\ scheduled
       (fst (convertCurrency (fst (convertCurrency (Examples.readyWorld "XXX" "2")))))
     = [(150, ResetScale); (150, ResetScale)].
Proof.
  destruct (convert_twice_shows_the_same (Examples.readyWorld "XXX" "2")
              Examples.snapshotXXX "XXX" "2" Examples.rateXXX
              eq_refl eq_refl eq_refl eq_refl) as (Ht & _ & B1 & B2 & C1 & C2).
  cbv zeta in Ht, B1, B2, C1, C2. rewrite Ht, B1, B2, C2, C1.
  split; [vm_compute; reflexivity |]. split; [reflexivity |].
  split; [reflexivity |]. vm_compute. reflexivity.
Defined.

End ConvertProperties.

Module PageFacts.
Import JSNumber JSParse App StringFacts DigitFacts FixedFacts FormatNPRFacts.
Import ConvertFacts ConvertFrame.

Lemma toFixed_two_decimals x :
  fixedNotation x = true -> Spec.hasTwoDecimals (toFixed x 2) = true.
Proof.
  destruct x as [s | s | | s m e]; try discriminate.
  - intros _. reflexivity.
  - cbn [fixedNotation]. intros H. apply negb_true_iff in H.
    rewrite (toFixed_finite s m e H).
    assert (Hh := roundScaled_nonneg 2 m e).
    set (h := roundScaled 2 m e) in *.
    assert (Hq : 0 <= h / 100) by (apply Z.div_pos; lia).
    assert (Hr : 0 <= h mod 100 < 100) by (apply Z.mod_pos_bound; lia).
    assert (HF := twoDigits_allDigits _ Hr).
    assert (HD := allChars_weaken _ _ _ digit_not_point
                    (decimalDigits_allDigits _ Hq)).
    set (D := decimalDigits (h / 100)) in *.
    set (F := Spec.twoDigits (h mod 100)) in *.
    assert (HsF : JSString.split "." F = [F])
      by apply split_without, (allChars_weaken _ _ F digit_not_point HF).
    assert (Hpre : JSString.allChars (JSString.notChar ".")
                     ((if s then "-" else "") ++ D) = true).
    { rewrite allChars_append, HD. destruct s; reflexivity. }
    replace ((if s then "-" else "") ++ D ++ "." ++ F)
      with (((if s then "-" else "") ++ D) ++ String "." F)
      by (now rewrite append_assoc).
    unfold Spec.hasTwoDecimals.
    rewrite (split_at_sep _ _ _ Hpre), HsF. cbn [rev List.app].
    unfold Spec.allDigits. rewrite HF. reflexivity.
Qed.

Lemma fold_left_append (rows : list Row) : forall acc,
  fold_left (fun html r => html ++ renderRow r) rows acc
  = acc ++ fold_left (fun html r => html ++ renderRow r) rows "".
Proof.
  induction rows as [|r rows IH]; intros acc; cbn [fold_left].
  - now rewrite append_nil_r.
  - rewrite (IH (acc ++ renderRow r)), (IH ("" ++ renderRow r)).
    cbn [append]. now rewrite append_assoc.
Qed.

(** What the other page functions leave alone. *)
Lemma ratesData_updateLastUpdated w :
  ratesData (updateLastUpdated w) = ratesData w
  /\ isLoading (updateLastUpdated w) = isLoading w
  /\ amount (elements (updateLastUpdated w)) = amount (elements w)
  /\ currency (elements (updateLastUpdated w)) = currency (elements w)
  /\ resultAmount (elements (updateLastUpdated w)) = resultAmount (elements w)
  /\ resultRate (elements (updateLastUpdated w)) = resultRate (elements w)
  /\ ratesBody (elements (updateLastUpdated w)) = ratesBody (elements w)
  /\ resultBox (elements (updateLastUpdated w)) = resultBox (elements w)
  /\ scheduled (updateLastUpdated w) = scheduled w.
Proof.
  unfold updateLastUpdated.
  destruct (lastUpdated (elements w)); [destruct (ratesData w) eqn:E |];
    cbn; rewrite ?E; repeat split.
Qed.

Lemma ratesData_updateRatesTable w :
  ratesData (updateRatesTable w) = ratesData w
  /\ isLoading (updateRatesTable w) = isLoading w
  /\ amount (elements (updateRatesTable w)) = amount (elements w)
  /\ currency (elements (updateRatesTable w)) = currency (elements w)
  /\ resultAmount (elements (updateRatesTable w)) = resultAmount (elements w)
  /\ resultRate (elements (updateRatesTable w)) = resultRate (elements w)
  /\ lastUpdated (elements (updateRatesTable w)) = lastUpdated (elements w)
  /\ resultBox (elements (updateRatesTable w)) = resultBox (elements w)
  /\ scheduled (updateRatesTable w) = scheduled w.
Proof.
  unfold updateRatesTable.
  destruct (ratesBody (elements w)); [destruct (ratesData w) eqn:E |];
    cbn; rewrite ?E; repeat split.
Qed.

Lemma ratesBody_updateRatesTable w data :
  ratesData w = Some data ->
  ratesBody (elements (updateRatesTable w))
  = option_map (fun _ => tableHtml data) (ratesBody (elements w)).
Proof.
  intros Hd. unfold updateRatesTable. rewrite Hd.
  destruct (ratesBody (elements w)) eqn:E; cbn; rewrite ?E; reflexivity.
Qed.

(** [showError], display by display. *)
Lemma showError_shape w :
  ratesData (showError w) = ratesData w
  /\ isLoading (showError w) = isLoading w
  /\ lastUpdated (elements (showError w))
     = option_map
         (fun _ => {| lu_textContent :=
                        LUText "⚠️ Unable to load rates. Please refresh.";
                      lu_background := "#f8d7da";
                      lu_color := "#721c24" |})
         (lastUpdated (elements w))
  /\ ratesBody (elements (showError w))
     = option_map (fun _ => errorRow) (ratesBody (elements w))
  /\ resultAmount (elements (showError w))
     = option_map
         (fun ra => {| ra_textContent := "Rates unavailable";
                       ra_color := ra_color ra |})
         (resultAmount (elements w))
  /\ resultRate (elements (showError w)) = resultRate (elements w)
  /\ resultBox (elements (showError w)) = resultBox (elements w)
  /\ currency (elements (showError w)) = currency (elements w)
  /\ amount (elements (showError w)) = amount (elements w)
  /\ convertBtn (elements (showError w)) = convertBtn (elements w)
  /\ scheduled (showError w) = scheduled w.
Proof.
  unfold showError.
  destruct (lastUpdated (elements w)) eqn:E1;
    cbn [withElements elements setLastUpdated ratesBody];
    destruct (ratesBody (elements w)) eqn:E2;
    cbn [withElements elements setRatesBody setLastUpdated resultAmount];
    destruct (resultAmount (elements w)) eqn:E3;
    cbn; rewrite ?E1, ?E2, ?E3; repeat split.
Qed.

Lemma elements_eq (e1 e2 : Elements) :
  currency e1 = currency e2 -> amount e1 = amount e2 ->
  convertBtn e1 = convertBtn e2 -> resultBox e1 = resultBox e2 ->
  resultAmount e1 = resultAmount e2 -> resultRate e1 = resultRate e2 ->
  lastUpdated e1 = lastUpdated e2 -> ratesBody e1 = ratesBody e2 ->
  e1 = e2.
Proof. destruct e1, e2; cbn; intros; subst; reflexivity. Qed.

Lemma world_eq (w1 w2 : World) :
  ratesData w1 = ratesData w2 -> isLoading w1 = isLoading w2 ->
  elements w1 = elements w2 -> scheduled w1 = scheduled w2 -> w1 = w2.
Proof. destruct w1, w2; cbn; intros; subst; reflexivity. Qed.

(** The page after a successful fetch, before the automatic conversion. *)
Lemma loaded_page_shape data w :
  let w2 := updateRatesTable (updateLastUpdated (setLoaded (Some data) w)) in
  ratesData w2 = Some data
  /\ isLoading w2 = false
  /\ currency (elements w2) = currency (elements w)
  /\ amount (elements w2) = amount (elements w)
  /\ resultAmount (elements w2) = resultAmount (elements w)
  /\ resultRate (elements w2) = resultRate (elements w)
  /\ resultBox (elements w2) = resultBox (elements w)
  /\ scheduled w2 = scheduled w
  /\ ratesBody (elements w2)
     = option_map (fun _ => tableHtml data) (ratesBody (elements w))
  /\ lastUpdated (elements w2)
     = option_map
         (fun lu => {| lu_textContent := LUDate (updated data);
                       lu_background := lu_background lu;
                       lu_color := lu_color lu |})
         (lastUpdated (elements w)).
Proof.
  cbv zeta.
  set (w0 := setLoaded (Some data) w).
  destruct (ratesData_updateLastUpdated w0)
    as (A1 & A2 & A3 & A4 & A5 & A6 & A7 & A8 & A9).
  destruct (ratesData_updateRatesTable (updateLastUpdated w0))
    as (B1 & B2 & B3 & B4 & B5 & B6 & B7 & B8 & B9).
  assert (Hd : ratesData (updateLastUpdated w0) = Some data)
    by (rewrite A1; reflexivity).
  rewrite (ratesBody_updateRatesTable _ data Hd).
  rewrite B1, B2, B3, B4, B5, B6, B7, B8, B9, A1, A2, A3, A4, A5, A6, A7, A8, A9.
  repeat split.
  unfold updateLastUpdated, w0. cbn [setLoaded elements ratesData].
  destruct (lastUpdated (elements w)) eqn:E; cbn; rewrite ?E; reflexivity.
Qed.

End PageFacts.

Module PageProperties.
Import JSNumber JSParse App StringFacts ConvertFacts ConvertFrame PageFacts.

(** Every buy and sell cell of the rates table carries exactly two decimal
    digits when every rate of the snapshot is finite and below 10^21. *)
Theorem table_cells_have_two_decimals data :
  Forall (fun entry => fixedNotation (buy (snd entry)) = true
                       /\ fixedNotation (sell (snd entry)) = true)
    (rates data) ->
  Forall (fun row => Spec.hasTwoDecimals (row_buy row) = true
                     /\ Spec.hasTwoDecimals (row_sell row) = true)
    (tableRows data).
Proof.
  unfold tableRows. induction (rates data) as [|[code rate] l IH];
    intros H; [constructor |].
  inversion H as [|x l' [Hb Hs] Hl]; subst. cbn [map].
  constructor; [| now apply IH].
  unfold rowOf. destruct (configNameFlag code) as [name flag].
  cbn [row_buy row_sell snd] in *.
  split; now apply toFixed_two_decimals.
Qed.

Lemma table_cells_have_two_decimals_witness :
  Forall (fun row => Spec.hasTwoDecimals (row_buy row) = true
                     /\ Spec.hasTwoDecimals (row_sell row) = true)
    (tableRows Examples.snapshotXXX).
Proof.
  apply table_cells_have_two_decimals.
  repeat constructor.
Defined.

(** The table is built row by row in the order of the entries: no entry
    gives no markup, one entry gives its row, and the markup of two lists of
    entries put together is the markup of the first followed by that of the
    second. *)
Theorem table_html_is_the_rows_in_order u entries1 entries2 entry :
  tableHtml {| updated := u; rates := [] |} = ""
  /\ tableHtml {| updated := u; rates := [entry] |} = renderRow (rowOf entry)
  /\ tableHtml {| updated := u; rates := entries1 ++ entries2 |}
     = tableHtml {| updated := u; rates := entries1 |}
       ++ tableHtml {| updated := u; rates := entries2 |}
  /\ List.length (tableRows {| updated := u; rates := entries1 |})
     = List.length entries1.
Proof.
  unfold tableHtml, tableRows. cbn [rates].
  split; [reflexivity |]. split; [reflexivity |]. split.
  - rewrite map_app, fold_left_app. apply fold_left_append.
  - apply length_map.
Qed.

(** The label of a row: flag, code and name from [CURRENCY_CONFIG] for a
    configured currency; the white flag and the code itself for a code that
    is neither configured nor a name found on [Object.prototype]; and for a
    code that names a function of [Object.prototype], the text
    ["undefined"] in place of the flag and the name of that function. *)
Theorem row_label_of_code code rate :
  (forall c, assoc code CURRENCY_CONFIG = Some c ->
             row_label (rowOf (code, rate))
             = info_flag c ++ " " ++ code ++ " - " ++ info_name c)
  /\ (assoc code CURRENCY_CONFIG = None -> inheritedKey code = false ->
      row_label (rowOf (code, rate)) = "🏳️ " ++ code ++ " - " ++ code)
  /\ (forall fname,
        assoc code CURRENCY_CONFIG = None ->
        assoc code objectPrototype = Some (BFunction fname) ->
        row_label (rowOf (code, rate))
        = "undefined " ++ code ++ " - " ++ fname).
Proof.
  unfold rowOf, configNameFlag, getProperty, inheritedKey. repeat split.
  - intros c ->. reflexivity.
  - intros -> Hi. destruct (assoc code objectPrototype); [discriminate |].
    reflexivity.
  - intros fname -> ->. reflexivity.
Qed.

Lemma row_label_of_code_witness :
  row_label (rowOf ("USD", Examples.rateXXX)) = "🇺🇸 USD - US Dollar"
  /\ row_label (rowOf ("XXX", Examples.rateXXX)) = "🏳️ XXX - XXX".
Proof.
  split.
  - exact (proj1 (row_label_of_code "USD" Examples.rateXXX) _ eq_refl).
  - exact (proj1 (proj2 (row_label_of_code "XXX" Examples.rateXXX))
             eq_refl eq_refl).
Defined.

(** A failed load leaves no snapshot behind and puts the page in its error
    state: the loading flag is off, the date line carries the warning in its
    alert colours, the table is the single error row and the result area
    reads ["Rates unavailable"] (its colour kept); the rate line and the
    input controls are untouched. *)
Theorem load_failure_shows_error_state w :
  let w' := loadRates FetchFailed w in
  ratesData w' = ratesData w
  /\ isLoading w' = false
  /\ (ratesData w = None -> loadStatus w' = Failed)
  /\ lastUpdated (elements w')
     = option_map
         (fun _ => {| lu_textContent :=
                        LUText "⚠️ Unable to load rates. Please refresh.";
                      lu_background := "#f8d7da";
                      lu_color := "#721c24" |})
         (lastUpdated (elements w))
  /\ ratesBody (elements w')
     = option_map (fun _ => errorRow) (ratesBody (elements w))
  /\ resultText w'
     = option_map (fun _ => "Rates unavailable") (resultAmount (elements w))
  /\ resultColor w' = resultColor w
  /\ rateText w' = rateText w
  /\ currency (elements w') = currency (elements w)
  /\ amount (elements w') = amount (elements w).
Proof.
  cbv zeta. unfold loadRates.
  destruct (showError_shape (setLoaded (ratesData w) w))
    as (S1 & S2 & S3 & S4 & S5 & S6 & S7 & S8 & S9 & S10 & S11).
  cbn [setLoaded ratesData isLoading elements] in *.
  unfold loadStatus, resultText, resultColor, rateText.
  rewrite S1, S2, S3, S4, S5, S6, S8, S9.
  repeat split; try reflexivity.
  - now intros ->.
  - now destruct (resultAmount (elements w)).
  - now destruct (resultAmount (elements w)).
Qed.

(** [showError] is idempotent: showing the error state twice is showing it
    once. *)
Theorem showError_twice w : showError (showError w) = showError w.
Proof.
  destruct (showError_shape w)
    as (S1 & S2 & S3 & S4 & S5 & S6 & S7 & S8 & S9 & S10 & S11).
  destruct (showError_shape (showError w))
    as (T1 & T2 & T3 & T4 & T5 & T6 & T7 & T8 & T9 & T10 & T11).
  apply world_eq; try congruence.
  apply elements_eq; try congruence.
  - rewrite T5, S5. now destruct (resultAmount (elements w)).
  - rewrite T3, S3. now destruct (lastUpdated (elements w)).
  - rewrite T4, S4. now destruct (ratesBody (elements w)).
Qed.

(** A successful load always ends with the snapshot held and the loading
    flag off, whatever the automatic conversion does (even when it throws
    and the error state is displayed). *)
Theorem load_success_holds_snapshot data w :
  ratesData (loadRates (FetchJson data) w) = Some data
  /\ isLoading (loadRates (FetchJson data) w) = false
  /\ loadStatus (loadRates (FetchJson data) w) = Ready.
Proof.
  assert (H : ratesData (loadRates (FetchJson data) w) = Some data
              /\ isLoading (loadRates (FetchJson data) w) = false).
  { unfold loadRates.
    destruct (loaded_page_shape data w) as (H1 & H2 & _).
    cbv zeta in H1, H2.
    set (w2 := updateRatesTable (updateLastUpdated (setLoaded (Some data) w))) in *.
    destruct (amount (elements w2)) as [v|]; [| now split].
    destruct (nonEmpty v); [| now split].
    destruct (convert_leaves_inputs_and_table_aux w2) as (F1 & F2 & _).
    destruct (convertCurrency w2) as [w3 [|]]; cbn [fst] in F1, F2.
    - split; congruence.
    - destruct (showError_shape (setLoaded (ratesData w3) w3)) as (S1 & S2 & _).
      rewrite S1, S2. cbn [setLoaded ratesData isLoading]. split; congruence. }
  destruct H as [H1 H2]. repeat split; try assumption.
  unfold loadStatus. now rewrite H1.
Qed.

(** A successful load with the amount field empty (or absent) renders the
    table and the date line and converts nothing: the result area, the rate
    line and the animation are left as they were. *)
Theorem load_success_without_amount data w :
  amount (elements w) = None \/ amount (elements w) = Some "" ->
  let w' := loadRates (FetchJson data) w in
  ratesBody (elements w')
  = option_map (fun _ => tableHtml data) (ratesBody (elements w))
  /\ lastUpdated (elements w')
     = option_map
         (fun lu => {| lu_textContent := LUDate (updated data);
                       lu_background := lu_background lu;
                       lu_color := lu_color lu |})
         (lastUpdated (elements w))
  /\ resultAmount (elements w') = resultAmount (elements w)
  /\ resultRate (elements w') = resultRate (elements w)
  /\ scheduled w' = scheduled w.
Proof.
  intros Ha. cbv zeta. unfold loadRates.
  destruct (loaded_page_shape data w)
    as (_ & _ & _ & H4 & H5 & H6 & _ & H8 & H9 & H10).
  cbv zeta in *.
  set (w2 := updateRatesTable (updateLastUpdated (setLoaded (Some data) w))) in *.
  rewrite H4.
  destruct Ha as [-> | ->]; cbn [nonEmpty]; repeat split; assumption.
Qed.

Lemma load_success_without_amount_witness :
  ratesBody (elements (loadRates (FetchJson Examples.snapshotXXX)
                         (initialWorld (Examples.page "XXX" ""))))
  = Some (tableHtml Examples.snapshotXXX)
  /\ resultText (loadRates (FetchJson Examples.snapshotXXX)
                   (initialWorld (Examples.page "XXX" "")))
     = Some "".
Proof.
  destruct (load_success_without_amount Examples.snapshotXXX
              (initialWorld (Examples.page "XXX" "")) (or_intror eq_refl))
    as (Hb & _ & Hr & _).
  split; [exact Hb |]. unfold resultText. rewrite Hr. reflexivity.
Defined.

(** A successful load with an amount already typed and a code that is a key
    of the rates converts at once: the result area and the rate line show
    the conversion, next to the rendered table. *)
Theorem load_success_converts_at_once data w code raw r :
  currency (elements w) = Some code ->
  amount (elements w) = Some raw ->
  nonEmpty raw = true ->
  assoc code (rates data) = Some r ->
  let w' := loadRates (FetchJson data) w in
  resultText w'
  = option_map (fun _ => formatNPR (mul (amountOf raw) (sell r)))
      (resultAmount (elements w))
  /\ rateText w'
     = option_map (fun _ => "1 " ++ code ++ " = NPR " ++ toFixed (sell r) 2)
         (resultRate (elements w))
  /\ ratesBody (elements w')
     = option_map (fun _ => tableHtml data) (ratesBody (elements w)).
Proof.
  intros Hc Ha Hne Hr. cbv zeta. unfold loadRates.
  destruct (loaded_page_shape data w)
    as (H1 & _ & H3 & H4 & H5 & H6 & _ & _ & H9 & _).
  cbv zeta in *.
  set (w2 := updateRatesTable (updateLastUpdated (setLoaded (Some data) w))) in *.
  rewrite Hc in H3. rewrite Ha in H4. rewrite H4, Hne.
  destruct (convert_leaves_inputs_and_table_aux w2) as (_ & _ & _ & _ & _ & _ & F7).
  rewrite (convertCurrency_known w2 data code raw r H1 H3 H4 Hr) in *.
  cbn [fst] in F7.
  rewrite resultText_animate, resultText_writeRate, resultText_writeResult.
  rewrite rateText_animate, rateText_writeRate, resultRate_writeResult.
  rewrite F7, H5, H6, H9. repeat split.
Qed.

Lemma load_success_converts_at_once_witness :
  resultText (loadRates (FetchJson Examples.snapshotXXX)
                (initialWorld (Examples.page "XXX" "2")))
  = Some "रू 200.00".
Proof.
  destruct (load_success_converts_at_once Examples.snapshotXXX
              (initialWorld (Examples.page "XXX" "2")) "XXX" "2" Examples.rateXXX
              eq_refl eq_refl eq_refl eq_refl) as (Ht & _).
  rewrite Ht. vm_compute. reflexivity.
Defined.

(** A successful load with an amount already typed and a selected code that
    is no key of the rates but a name found on [Object.prototype]: the
    automatic conversion throws inside the [try], so the page ends in the
    error state (error row, ["Rates unavailable"]) although the snapshot is
    held. *)
Theorem load_success_with_inherited_code_shows_error data w code raw :
  currency (elements w) = Some code ->
  amount (elements w) = Some raw ->
  nonEmpty raw = true ->
  assoc code (rates data) = None ->
  inheritedKey code = true ->
  let w' := loadRates (FetchJson data) w in
  ratesData w' = Some data
  /\ resultText w'
     = option_map (fun _ => "Rates unavailable") (resultAmount (elements w))
  /\ ratesBody (elements w')
     = option_map (fun _ => errorRow) (ratesBody (elements w)).
Proof.
  intros Hc Ha Hne Hr Hi. cbv zeta. unfold loadRates.
  destruct (loaded_page_shape data w)
    as (H1 & _ & H3 & H4 & H5 & _ & _ & _ & H9 & _).
  cbv zeta in *.
  set (w2 := updateRatesTable (updateLastUpdated (setLoaded (Some data) w))) in *.
  rewrite Hc in H3. rewrite Ha in H4. rewrite H4, Hne.
  rewrite (convertCurrency_inherited w2 data code raw H1 H3 H4 Hr Hi).
  destruct (showError_shape (setLoaded (ratesData w2) w2))
    as (S1 & _ & _ & S4 & S5 & _).
  cbn [setLoaded ratesData elements] in S1, S4, S5.
  unfold resultText. rewrite S1, S4, S5, H1, H5, H9.
  repeat split.
  - now destruct (resultAmount (elements w)).
  - now destruct (ratesBody (elements w)).
Qed.

Lemma load_success_with_inherited_code_shows_error_witness :
  resultText (loadRates (FetchJson Examples.snapshotXXX)
                (initialWorld (Examples.page "toString" "2")))
  = Some "Rates unavailable"
  /\ loadStatus (loadRates (FetchJson Examples.snapshotXXX)
                   (initialWorld (Examples.page "toString" "2")))
     = Ready.
Proof.
  destruct (load_success_with_inherited_code_shows_error Examples.snapshotXXX
              (initialWorld (Examples.page "toString" "2")) "toString" "2"
              eq_refl eq_refl eq_refl eq_refl eq_refl) as (Hd & Ht & _).
  split; [exact Ht |]. unfold loadStatus. now rewrite Hd.
Defined.

End PageProperties.

Module RateLineProperties.
Import JSNumber JSParse App StringFacts ConvertFacts PageFacts.

(** With a snapshot loaded and the requested code among its rates,
    [convertCurrency] completes normally, shows the parsed amount multiplied
    by the sell rate of that code (the buy rate appears nowhere) and shows
    the rate line ["1 code = NPR "] followed by [toFixed(2)] of the sell
    rate, which ends in exactly two decimals when the sell rate is finite
    and below 10^21. *)
Theorem convert_shows_sell_product_and_rate w data code raw r :
  ratesData w = Some data ->
  currency (elements w) = Some code ->
  amount (elements w) = Some raw ->
  assoc code (rates data) = Some r ->
  snd (convertCurrency w) = Normal
  /\ resultText (fst (convertCurrency w))
     = option_map (fun _ => formatNPR (mul (amountOf raw) (sell r)))
         (resultAmount (elements w))
  /\ rateText (fst (convertCurrency w))
     = option_map (fun _ => "1 " ++ code ++ " = NPR " ++ toFixed (sell r) 2)
         (resultRate (elements w))
  /\ (fixedNotation (sell r) = true ->
      Spec.hasTwoDecimals (toFixed (sell r) 2) = true).
Proof.
  intros Hd Hc Ha Hr.
  rewrite (convertCurrency_known w data code raw r Hd Hc Ha Hr).
  cbn [fst snd]. split; [reflexivity |]. split; [| split].
  - now rewrite resultText_animate, resultText_writeRate, resultText_writeResult.
  - now rewrite rateText_animate, rateText_writeRate, resultRate_writeResult.
  - apply toFixed_two_decimals.
Qed.

(** The example of the specification: [{"XXX": {buy: 1, sell: 100}}] and the
    amount ["2"]. *)
Lemma convert_shows_sell_product_and_rate_witness :
  resultText (fst (convertCurrency (Examples.readyWorld "XXX" "2")))
  = Some "रू 200.00"
  /\ rateText (fst (convertCurrency (Examples.readyWorld "XXX" "2")))
     = Some "1 XXX = NPR 100.00"
  /\ Spec.hasTwoDecimals (toFixed (ofZ 100) 2) = true.
Proof.
  destruct (convert_shows_sell_product_and_rate (Examples.readyWorld "XXX" "2")
              Examples.snapshotXXX "XXX" "2" Examples.rateXXX
              eq_refl eq_refl eq_refl eq_refl) as (_ & Ht & Hr & H2).
  rewrite Ht, Hr. split; [vm_compute; reflexivity |].
  split; [vm_compute; reflexivity |]. exact (H2 eq_refl).
Defined.

End RateLineProperties.

Module DebounceProperties.
Import Debounce DebounceFacts.

Section WithAction.

Context {Args AppState : Type}.
Variable func : Args -> AppState -> AppState.
Variable wait : Z.

Lemma advance_keeps_one_timer t (h : Host Args AppState) :
  atMostOneTimer h -> atMostOneTimer (advance func t h).
Proof.
  intros [Hp | (tm & Hp & Hto)].
  - rewrite (advance_nothing_pending func t h Hp). now left.
  - destruct (Z_lt_le_dec t (due tm)) as [Hlt | Hge].
    + rewrite (advance_before_due func t h tm Hp Hlt). right.
      exists tm. split; [reflexivity | exact Hto].
    + rewrite (advance_fires func t h tm Hp Hto Hge). now left.
Qed.

Lemma executedFunction_arms_one a (h : Host Args AppState) :
  atMostOneTimer h ->
  exists id, pending (executedFunction wait a h)
             = [{| handle := id; due := now h + wait; captured := a |}]
             /\ timeout (executedFunction wait a h) = Some id.
Proof.
  intros Hinv. exists (nextHandle h). unfold executedFunction.
  cbn [pending timeout]. split; [| reflexivity].
  destruct Hinv as [Hp | (tm & Hp & Hto)].
  - rewrite Hp. destruct (timeout h); reflexivity.
  - rewrite Hp, Hto, clearTimeout_own. reflexivity.
Qed.

Lemma trigger_keeps_one_timer ev (h : Host Args AppState) :
  atMostOneTimer h -> atMostOneTimer (trigger func wait ev h).
Proof.
  intros Hinv. unfold trigger.
  destruct (executedFunction_arms_one (snd ev) _
              (advance_keeps_one_timer (fst ev) h Hinv)) as (id & Hp & Hto).
  right. eexists. split; [exact Hp | exact Hto].
Qed.

(** At most one invocation is ever pending, whatever the triggers and
    whenever they come: after each trigger exactly one timer is armed, and
    at any later time it is that one or none. *)
Theorem debounce_never_queues (evs : list (Z * Args)) (t0 : Z) (a0 : AppState) :
  Forall (fun h => (List.length (pending h) = 1)%nat
                   /\ forall T, (List.length (pending (advance func T h)) <= 1)%nat)
    (runTrace func wait evs (idle t0 a0)).
Proof.
  assert (Hgen : forall (h : Host Args AppState), atMostOneTimer h ->
    Forall (fun h => (List.length (pending h) = 1)%nat
                     /\ forall T, (List.length (pending (advance func T h)) <= 1)%nat)
      (runTrace func wait evs h)).
  { induction evs as [|ev evs IH]; intros h Hinv; cbn [runTrace]; [constructor |].
    assert (Hinv' := trigger_keeps_one_timer ev h Hinv).
    constructor; [| now apply IH].
    split.
    - unfold trigger.
      destruct (executedFunction_arms_one (snd ev) _
                  (advance_keeps_one_timer (fst ev) h Hinv)) as (id & -> & _).
      reflexivity.
    - intros T.
      destruct (advance_keeps_one_timer T _ Hinv') as [-> | (tm & -> & _)];
        cbn; lia. }
  apply Hgen. now left.
Qed.

(** A trigger that comes after the armed timer was due finds that it has
    run, then arms its own. *)
Lemma trigger_after_due ev (h : Host Args AppState) t a :
  0 <= wait -> armed wait h t a -> t + wait < fst ev ->
  armed wait (trigger func wait ev h) (fst ev) (snd ev)
  /\ calls (trigger func wait ev h) = (calls h ++ [(t + wait, a)])%list
  /\ app (trigger func wait ev h) = func a (app h).
Proof.
  intros Hw (Hn & id & Hto & Hp) Hev. unfold trigger.
  rewrite (advance_fires func (fst ev) h _ Hp Hto) by (cbn; lia).
  unfold executedFunction, armed.
  cbn [now timeout pending nextHandle app calls due captured].
  rewrite Hto, Hn. cbn [clearTimeout filter List.app].
  rewrite (Z.max_r t (t + wait)) by lia. rewrite Z.max_r by lia.
  split; [| split; reflexivity].
  split; [reflexivity |]. eexists. split; reflexivity.
Qed.

Lemma spaced_from_armed : forall evs (h : Host Args AppState) t a,
  0 <= wait -> armed wait h t a -> wellSpaced wait t evs ->
  armed wait (run func wait evs h)
    (fst (last evs (t, a))) (snd (last evs (t, a)))
  /\ calls (run func wait evs h)
     = (calls h ++ map (fun ev => (fst ev + wait, snd ev))
                     (removelast ((t, a) :: evs)))%list
  /\ app (run func wait evs h)
     = fold_left (fun s ev => func (snd ev) s)
         (removelast ((t, a) :: evs)) (app h).
Proof.
  induction evs as [|ev evs IH]; intros h t a Hw Harmed Hsp.
  - cbn [run fold_left last removelast map]. rewrite app_nil_r.
    split; [exact Harmed | split; reflexivity].
  - destruct Hsp as [Hev Hsp].
    destruct (trigger_after_due ev h t a Hw Harmed Hev) as (Ha & Hc & Hp).
    destruct (IH _ _ _ Hw Ha Hsp) as (Ha' & Hc' & Hp').
    rewrite <- (surjective_pairing ev) in Ha', Hc', Hp'.
    change (run func wait (ev :: evs) h)
      with (run func wait evs (trigger func wait ev h)).
    rewrite last_cons.
    change (removelast ((t, a) :: ev :: evs))
      with ((t, a) :: removelast (ev :: evs)).
    split; [exact Ha' |]. split.
    + rewrite Hc', Hc. cbn [map fst snd]. now rewrite <- app_assoc.
    + rewrite Hp', Hp. reflexivity.
Qed.

(** Triggers more than [wait] apart are not collapsed on a host that runs
    each timer when it is due: each trigger runs the action, [wait] after it
    came, with its own arguments and in order. *)
Theorem debounce_spaced_triggers_all_fire
  (t0 : Z) (a0 : AppState) (first : Z * Args) (more : list (Z * Args)) (T : Z) :
  0 <= wait ->
  t0 <= fst first ->
  wellSpaced wait (fst first) more ->
  fst (last more first) + wait <= T ->
  let evs := first :: more in
  let h := advance func T (run func wait evs (idle t0 a0)) in
  calls h = map (fun ev => (fst ev + wait, snd ev)) evs
  /\ app h = fold_left (fun s ev => func (snd ev) s) evs a0
  /\ pending h = [].
Proof.
  intros Hw Ht0 Hsp HT evs h.
  destruct (trigger_when_idle func wait first (idle t0 a0) eq_refl Ht0)
    as (Ha1 & Hc1 & Hp1).
  destruct (spaced_from_armed more _ _ _ Hw Ha1 Hsp) as (Ha & Hc & Hp).
  rewrite <- (surjective_pairing first) in Ha, Hc, Hp.
  change (run func wait more (trigger func wait first (idle t0 a0)))
    with (run func wait evs (idle t0 a0)) in Ha, Hc, Hp.
  rewrite Hc1 in Hc. rewrite Hp1 in Hp. cbn [idle calls app List.app] in Hc, Hp.
  destruct Ha as (Hnow & id & Hto & Hpend).
  unfold h. rewrite (advance_fires func T _ _ Hpend Hto) by (cbn; lia).
  cbn [calls app pending due captured]. rewrite Hc, Hp, Hnow.
  rewrite Z.max_r by lia.
  assert (Hsplit : evs = (removelast evs ++ [last more first])%list).
  { unfold evs. rewrite <- (last_cons more first first).
    apply app_removelast_last. discriminate. }
  repeat split.
  - transitivity (map (fun ev => (fst ev + wait, snd ev))
                    (removelast evs ++ [last more first])%list);
      [now rewrite map_app | now rewrite <- Hsplit].
  - transitivity (fold_left (fun s ev => func (snd ev) s)
                    (removelast evs ++ [last more first])%list a0);
      [now rewrite fold_left_app | now rewrite <- Hsplit].
Qed.

End WithAction.

(** Two keystrokes 400 time units apart are two conversions. *)
Lemma debounce_spaced_triggers_all_fire_witness :
  calls (advance convertAction 1000
           (run convertAction inputWait [(0, tt); (400, tt)]
              (idle 0 (Examples.readyWorld "XXX" "2"))))
  = [(300, tt); (700, tt)].
Proof.
  destruct (debounce_spaced_triggers_all_fire convertAction inputWait 0
              (Examples.readyWorld "XXX" "2") (0, tt) [(400, tt)] 1000)
    as (Hc & _).
  - unfold inputWait. lia.
  - cbn. lia.
  - cbn. unfold inputWait. lia.
  - cbn. unfold inputWait. lia.
  - exact Hc.
Defined.



End DebounceProperties.

Module RoundTripFacts.
Import JSNumber JSParse StringFacts DigitFacts ParseFacts RoundFacts.

Lemma digitChar_value d :
  0 <= d < 10 -> Z.of_nat (nat_of_ascii (digitChar d)) - 48 = d.
Proof.
  intros Hd.
  assert (Hc : d = 0 \/ d = 1 \/ d = 2 \/ d = 3 \/ d = 4 \/ d = 5 \/ d = 6
               \/ d = 7 \/ d = 8 \/ d = 9) by lia.
  repeat (destruct Hc as [-> | Hc]; [reflexivity |]). subst; reflexivity.
Qed.

Lemma digitsValue_app a : forall b acc,
  digitsValue acc (a ++ b) = digitsValue (digitsValue acc a) b.
Proof.
  induction a as [|c a IH]; intros b acc; cbn [append digitsValue];
    [reflexivity | apply IH].
Qed.

Lemma digitsValue_decimalDigits n : 0 <= n -> digitsValue 0 (decimalDigits n) = n.
Proof.
  intros Hn. pattern n. apply digits_ind; trivial; clear n Hn.
  - intros n Hn. rewrite decimalDigits_small by lia. cbn [digitsValue].
    rewrite digitChar_value by lia. lia.
  - intros n Hn IH. rewrite decimalDigits_step, digitsValue_app, IH by lia.
    cbn [digitsValue]. rewrite digitChar_value by (apply Z.mod_pos_bound; lia).
    Z.to_euclidean_division_equations; lia.
Qed.

(** A non-empty run of digits is a literal on its own. *)
Lemma scanLiteral_digits c rest :
  JSString.allChars isDigit (String c rest) = true ->
  scanLiteral (String c rest)
  = Some (false, LitDecimal (String c rest) "" 0, "").
Proof.
  intros H. assert (Hc : isDigit c = true).
  { cbn [JSString.allChars] in H. now apply andb_prop in H as [Hc _]. }
  unfold scanLiteral. destruct (digit_not_sign c Hc) as [-> ->].
  unfold scanSigned, scanUnsigned.
  rewrite (prefix_Infinity_digit c rest Hc), (takeDigits_all _ H).
  reflexivity.
Qed.

End RoundTripFacts.

Module RoundTripProperties.
Import JSNumber JSParse App StringFacts DigitFacts ParseFacts RoundFacts.
Import RoundTripFacts.

(** The digits printed for a non-negative integer are read back by
    [parseFloat] as the Number nearest to that integer: reading after
    printing loses nothing but the rounding to a double. *)
Theorem parseFloat_of_printed_integer n :
  0 <= n ->
  digitsValue 0 (decimalDigits n) = n
  /\ parseFloat (decimalDigits n) = ofZ n.
Proof.
  intros Hn. split; [now apply digitsValue_decimalDigits |].
  assert (HD := decimalDigits_allDigits n Hn).
  destruct (decimalDigits_nonempty n Hn) as (c & rest & E & _).
  rewrite E in HD.
  assert (Hs := scanLiteral_digits c rest HD).
  unfold parseFloat. rewrite E.
  rewrite (scanLiteral_trimmed _ _ _ _ Hs), Hs.
  cbn [literalValue]. rewrite append_nil_r, <- E, digitsValue_decimalDigits by exact Hn.
  destruct (Z.eqb_spec n 0) as [-> | Hnz]; [reflexivity |].
  unfold roundDecimal, ofZ, binary_normalize.
  change (0 - Z.of_nat (String.length "")) with 0.
  change (0 <=? 0) with true. cbv iota.
  change (10 ^ 0) with 1. rewrite Z.mul_1_r.
  destruct n as [|p|p]; [congruence | reflexivity | lia].
Qed.

Lemma parseFloat_of_printed_integer_witness :
  parseFloat "1234567" = ofZ 1234567.
Proof.
  exact (proj2 (parseFloat_of_printed_integer 1234567 ltac:(lia))).
Defined.

End RoundTripProperties.
